(** * utils/changelog/changelog.py: classification of pull requests

    A shallow embedding of the changelog generator: the body scan and the
    post-processing rules of [generate_description], the cache-or-fetch
    logic of [get_pull_cached], and the bucket aggregation of
    [get_descriptions].

    Modelling conventions.
    - A Python [str] is a [string]; a character is a code point below 256
      (Latin-1).  White space and case conversion are the Unicode ones
      restricted to that range.
    - [fuzzywuzzy.fuzz.ratio] is an external library function: it is a
      section variable [ratio].
    - The GitHub client is an oracle [get_pull] indexed by the number of
      remote calls made so far; the file cache and the clock are fields of
      an explicit [World] that the effectful functions thread.
    - [while True] loops take fuel; running out of fuel is the outcome
      [OutOfFuel], distinct from returning and from raising. *)

From Stdlib Require Import ZArith Ascii String List Bool Lia Sorted Permutation.
From Stdlib Require Import DecimalString.
From stdpp Require Import base option list gmap strings.
Import ListNotations.

Local Open Scope string_scope.
Local Open Scope list_scope.
Local Open Scope Z_scope.

(** ** Characters *)

Module Char.

Definition code (c : ascii) : N := N_of_ascii c.

(** [str.isspace] on one character, which is also what [\s] matches in a
    [str] pattern and what [str.strip()] removes. *)
Definition is_space (c : ascii) : bool :=
  let n := code c in
  (((9 <=? n) && (n <=? 13)) || ((28 <=? n) && (n <=? 32))
   || (n =? 133) || (n =? 160))%N.

(** [str.lower] on one character. *)
Definition lower (c : ascii) : ascii :=
  let n := code c in
  if (((65 <=? n) && (n <=? 90))
      || ((192 <=? n) && (n <=? 222) && negb (n =? 215)))%N
  then ascii_of_N (n + 32) else c.

(** Membership in a regular-expression character class given by its
    characters. *)
Fixpoint in_class (cls : string) (c : ascii) : bool :=
  match cls with
  | EmptyString => false
  | String d cls' => Ascii.eqb c d || in_class cls' c
  end.

End Char.

(** ** String primitives used by the script *)

Module Str.

Definition is_empty (s : string) : bool :=
  match s with EmptyString => true | _ => false end.

(** [s.lower()] *)
Fixpoint lower (s : string) : string :=
  match s with
  | EmptyString => EmptyString
  | String c s' => String (Char.lower c) (lower s')
  end.

(** Drop the longest prefix of characters satisfying [p]: what a greedy
    [[class]*] consumes at the start of [s]. *)
Fixpoint skip (p : ascii -> bool) (s : string) : string :=
  match s with
  | EmptyString => EmptyString
  | String c s' => if p c then skip p s' else s
  end.

Definition lstrip (s : string) : string := skip Char.is_space s.

Fixpoint rstrip (s : string) : string :=
  match s with
  | EmptyString => EmptyString
  | String c s' =>
      let r := rstrip s' in
      if is_empty r && Char.is_space c then EmptyString else String c r
  end.

(** [s.strip()] *)
Definition strip (s : string) : string := rstrip (lstrip s).

(** [s.split(sep)] for a one-character separator. *)
Fixpoint split (sep : ascii) (s : string) : list string :=
  match s with
  | EmptyString => [EmptyString]
  | String c s' =>
      if Ascii.eqb c sep then EmptyString :: split sep s'
      else match split sep s' with
           | h :: t => String c h :: t
           | [] => [String c EmptyString]
           end
  end.

(** [sep.join(parts)] *)
Definition join (sep : string) (parts : list string) : string :=
  String.concat sep parts.

(** [s.startswith(p)] *)
Definition startswith (p s : string) : bool := String.prefix p s.

(** [s[-1]], which raises [IndexError] on the empty string. *)
Fixpoint last (s : string) : option ascii :=
  match s with
  | EmptyString => None
  | String c EmptyString => Some c
  | String _ s' => last s'
  end.

(** [str(n)] for an integer. *)
Definition of_Z (n : Z) : string := NilZero.string_of_int (Z.to_int n).

(** A literal of a pattern compiled with [(?i)], matched at the start of
    [s]; the literal is written in lower case.  Returns the rest. *)
Fixpoint lit_ci (lit s : string) : option string :=
  match lit with
  | EmptyString => Some s
  | String l lit' =>
      match s with
      | EmptyString => None
      | String c s' =>
          if Ascii.eqb (Char.lower c) l then lit_ci lit' s' else None
      end
  end.

(** [re.sub(r"\s+", " ", s)]: every maximal run of white space becomes one
    space.  The space is emitted at the last character of the run. *)
Fixpoint collapse_ws (s : string) : string :=
  match s with
  | EmptyString => EmptyString
  | String c s' =>
      if Char.is_space c then
        match s' with
        | String c' _ =>
            if Char.is_space c' then collapse_ws s'
            else String " " (collapse_ws s')
        | EmptyString => String " " EmptyString
        end
      else String c (collapse_ws s')
  end.

(** Drop the longest suffix of characters satisfying [p]. *)
Fixpoint rskip (p : ascii -> bool) (s : string) : string :=
  match s with
  | EmptyString => EmptyString
  | String c s' =>
      let r := rskip p s' in
      if is_empty r && p c then EmptyString else String c r
  end.

(** The white space that [int()] skips around the number: the ASCII
    white space, and above U+007F the characters that [str.isspace]
    holds.  The separators U+001C to U+001F are not skipped. *)
Definition is_int_space (c : ascii) : bool :=
  let n := Char.code c in
  (((9 <=? n) && (n <=? 13)) || (n =? 32) || (n =? 133) || (n =? 160))%N.

(** The default of [sys.get_int_max_str_digits()]: [int()] raises
    [ValueError] on more decimal digits. *)
Definition int_max_str_digits : nat := 4300.

Definition digit (c : ascii) : option Z :=
  let n := Char.code c in
  if ((48 <=? n) && (n <=? 57))%N then Some (Z.of_N n - 48) else None.

(** The digits of the number, with single underscores between them;
    [count] is the number of digits read so far. *)
Fixpoint digits (acc : Z) (prev_digit : bool) (count : nat) (s : string) : option Z :=
  match s with
  | EmptyString =>
      if prev_digit && (count <=? int_max_str_digits)%nat then Some acc else None
  | String c s' =>
      match digit c with
      | Some d => digits (10 * acc + d) true (S count) s'
      | None =>
          if Ascii.eqb c "_" && prev_digit then digits acc false count s' else None
      end
  end.

(** Python [int(s)] for a [str]: surrounding white space, an optional
    sign, decimal digits with single underscores between them; [None]
    stands for [ValueError]. *)
Definition int (s : string) : option Z :=
  match rskip is_int_space (skip is_int_space s) with
  | String "-" s' => Z.opp <$> digits 0 false 0 s'
  | String "+" s' => digits 0 false 0 s'
  | s' => digits 0 false 0 s'
  end.

End Str.

(** ** The regular expressions of [generate_description]

    Each pattern is matched with [re.match], that is anchored at the start
    of the line and free at its end.  In every pattern a starred class is
    followed by a literal whose first character is outside the class, so
    the greedy match never backtracks into it and a left-to-right matcher
    decides the pattern. *)

Module Re.

Definition matched (r : option string) : bool :=
  match r with Some _ => true | None => false end.

(** [(?i)^[#>*_ ]*change\s*log\s*category] *)
Definition category_header (line : string) : bool :=
  matched (s ← Str.lit_ci "change" (Str.skip (Char.in_class "#>*_ ") line);
           s ← Str.lit_ci "log" (Str.skip Char.is_space s);
           Str.lit_ci "category" (Str.skip Char.is_space s)).

(** [(?i)^[#>*_ ]*(short\s*description|change\s*log\s*entry)] *)
Definition entry_header (line : string) : bool :=
  let s0 := Str.skip (Char.in_class "#>*_ ") line in
  matched (s ← Str.lit_ci "short" s0;
           Str.lit_ci "description" (Str.skip Char.is_space s))
  || matched (s ← Str.lit_ci "change" s0;
              s ← Str.lit_ci "log" (Str.skip Char.is_space s);
              Str.lit_ci "entry" (Str.skip Char.is_space s)).

(** [re.sub(r"^[-*\s]*", "", line)] *)
Definition strip_list_marker (line : string) : string :=
  Str.skip (fun c => Char.in_class "-*" c || Char.is_space c) line.

(** [(?i)((non|in|not|un)[-\s]*significant)|(not[ ]*for[ ]*changelog)] *)
Definition not_for_changelog (category : string) : bool :=
  existsb
    (fun p =>
       matched (s ← Str.lit_ci p category;
                Str.lit_ci "significant"
                  (Str.skip (fun c => Char.in_class "-" c || Char.is_space c) s)))
    ["non"; "in"; "not"; "un"]
  || matched (s ← Str.lit_ci "not" category;
              s ← Str.lit_ci "for" (Str.skip (Char.in_class " ") s);
              Str.lit_ci "changelog" (Str.skip (Char.in_class " ") s)).

(** [(?i)doc] *)
Definition documentation (category : string) : bool :=
  matched (Str.lit_ci "doc" category).

End Re.

(** ** Data model *)

(** The fields of [github.NamedUser] that the script reads. *)
Record NamedUser := {
  name : option string;
  login : string;
  user_html_url : string;
}.

(** The fields of [github.PullRequest] that the script reads;
    [head_ref] is [item.head.ref]. *)
Record PullRequest := {
  pr_number : Z;
  pr_user : NamedUser;
  pr_html_url : string;
  title : string;
  body : option string;
  head_ref : string;
  merge_commit_sha : string;
}.

(** [class Description] *)
Record Description := {
  number : Z;
  user : NamedUser;
  html_url : string;
  entry : string;
  category : string;
}.

(** [Description.__lt__] *)
Definition Description_lt (a b : Description) : bool :=
  number a <? number b.

(** [Description.__eq__] on two descriptions. *)
Definition Description_eq (a b : Description) : bool :=
  number a =? number b.

Inductive Exn :=
| RateLimitExceededException
| UnknownObjectException
| IndexError
| ValueError
| OtherException (tag : Z).

(** What a call does: return, raise, or run for ever (no fuel left). *)
Inductive Outcome (A : Type) :=
| Returned (a : A)
| Raised (e : Exn)
| OutOfFuel.
Arguments Returned {A} a.
Arguments Raised {A} e.
Arguments OutOfFuel {A}.

Definition categories_preferred_order : list string :=
  [ "Backward Incompatible Change";
    "New Feature";
    "Performance Improvement";
    "Improvement";
    "Bug Fix";
    "Build/Testing/Packaging Improvement";
    "Other" ].

(** ** Body parsing *)

(** [[re.sub(r"\s+", " ", x.strip()) for x in description.split("\n")]],
    and the empty list for an empty or absent body. *)
Definition body_lines (description : option string) : list string :=
  match description with
  | None | Some EmptyString => []
  | Some d => map (fun x => Str.collapse_ws (Str.strip x)) (Str.split "010" d)
  end.

(** The [while i < len(lines)] loop, on the lines from index [i] on.  The
    accumulators are the variables [category] and [entry].  [collect] is
    the inner [while i < len(lines) and lines[i]] loop; it hands the lines
    from the first empty one on back to the outer loop. *)
Fixpoint scan (lines : list string) (category entry : string) : string * string :=
  match lines with
  | [] => (category, entry)
  | line :: rest =>
      if Re.category_header line then
        match rest with
        | [] => (category, entry)
        | l1 :: rest1 =>
            if Str.is_empty l1 then
              match rest1 with
              | [] => (category, entry)
              | l2 :: rest2 => scan rest2 (Re.strip_list_marker l2) entry
              end
            else scan rest1 (Re.strip_list_marker l1) entry
        end
      else if Re.entry_header line then
        let fix collect (ls : list string) (entry_lines : list string) :=
          match ls with
          | [] => (category, Str.join " " entry_lines)
          | l :: ls' =>
              if Str.is_empty l then scan ls category (Str.join " " entry_lines)
              else collect ls' (entry_lines ++ [l])
          end in
        match rest with
        | l1 :: rest1 => if Str.is_empty l1 then collect rest1 [] else collect rest []
        | [] => collect rest []
        end
      else scan rest category entry
  end.

(** The pair [(category, entry)] after the scan of a body. *)
Definition parse_body (description : option string) : string * string :=
  scan (body_lines description) "" "".

(** ** Post-processing rules of [generate_description] *)

Section Classifier.

(** [fuzzywuzzy.fuzz.ratio], a score between 0 and 100. *)
Variable ratio : string -> string -> Z.

(** The loop over [categories_preferred_order], with its [break]. *)
Fixpoint normalize_loop (cs : list string) (category : string) : string :=
  match cs with
  | [] => category
  | c :: cs' =>
      if 90 <=? ratio (Str.lower category) (Str.lower c) then c
      else normalize_loop cs' category
  end.

Definition normalize_category (category : string) : string :=
  normalize_loop categories_preferred_order category.

(** [if not category: category = "NO CL CATEGORY"] *)
Definition default_category (category : string) : string :=
  if Str.is_empty category then "NO CL CATEGORY" else category.

(** The backport prefix, the [NO CL ENTRY] rule and [entry.strip()]: the
    pair [(category, entry)] on which the trailing-period rule works. *)
Definition before_period_rule (backport_number : Z) (item : PullRequest)
    (category entry : string) : string * string :=
  let entry :=
    if negb (backport_number =? pr_number item)
    then "Backported in #" +:+ Str.of_Z backport_number +:+ ": " +:+ entry
    else entry in
  let '(category, entry) :=
    if Str.is_empty entry
    then ("NO CL ENTRY", "NO CL ENTRY:  '" +:+ title item +:+ "'")
    else (category, entry) in
  (category, Str.strip entry).

(** [generate_description] from [description = item.body] on, for the
    pull request [item] that is classified and the number
    [backport_number] of the pull request that was handed in. *)
Definition describe (backport_number : Z) (item : PullRequest)
    : Outcome (option Description) :=
  let '(category, entry) := parse_body (body item) in
  let category := default_category category in
  if Re.not_for_changelog category then
    Returned (Some {| number := pr_number item; user := pr_user item;
                      html_url := pr_html_url item; entry := title item;
                      category := "NOT FOR CHANGELOG / INSIGNIFICANT" |})
  else if Re.documentation category then Returned None
  else
    let '(category, entry) := before_period_rule backport_number item category entry in
    match Str.last entry with
    | None => Raised IndexError
    | Some c =>
        let entry := if negb (Ascii.eqb c ".") then entry +:+ "." else entry in
        Returned (Some {| number := pr_number item; user := pr_user item;
                          html_url := pr_html_url item; entry := entry;
                          category := normalize_category category |})
    end.

End Classifier.

(** ** The cache and the remote fetch *)

(** What [repo.get_pull(number)] does. *)
Inductive Response :=
| Fetched (pr : PullRequest)
| Failed (e : Exn).

(** [github.Repository]: the answer to the [k]-th remote call of the run. *)
Record Repository := {
  get_pull : nat -> Z -> Response;
}.

(** Times are in microseconds, the resolution of [datetime]. *)
Definition seconds (n : Z) : Z := n * 1000000.
Definition hours (n : Z) : Z := seconds (n * 3600).

(** The state the effectful functions act on: the clock, the files
    [gh_cache/<number>.pickle] with their modification times, the number
    of remote calls made, and the durations slept, oldest first. *)
Record World := {
  now : Z;
  cache : gmap Z (Z * PullRequest);
  calls : nat;
  sleeps : list Z;
}.

(** [sleep_on_rate_limit(time)] *)
Definition sleep_on_rate_limit (time : Z) (w : World) : World :=
  {| now := now w + seconds time; cache := cache w; calls := calls w;
     sleeps := sleeps w ++ [time] |}.

(** The default of the parameter [time]. *)
Definition default_backoff : Z := 20.

Definition count_call (w : World) : World :=
  {| now := now w; cache := cache w; calls := S (calls w); sleeps := sleeps w |}.

(** [GitHub.dump(pr, prfd)] into the cache file of [number]. *)
Definition write_cache (number : Z) (pr : PullRequest) (w : World) : World :=
  {| now := now w; cache := <[number := (now w, pr)]> (cache w);
     calls := calls w; sleeps := sleeps w |}.

(** The [while True] loop around [repo.get_pull(number)]. *)
Fixpoint fetch (fuel : nat) (repo : Repository) (number : Z) (w : World)
    : Outcome PullRequest * World :=
  match fuel with
  | O => (OutOfFuel, w)
  | S fuel' =>
      match get_pull repo (calls w) number with
      | Fetched pr => (Returned pr, count_call w)
      | Failed RateLimitExceededException =>
          fetch fuel' repo number (sleep_on_rate_limit default_backoff (count_call w))
      | Failed e => (Raised e, count_call w)
      end
  end.

(** [if updated_at is None: updated_at = datetime.now() - timedelta(hours=-1)] *)
Definition effective_updated_at (updated_at : option Z) (w : World) : Z :=
  match updated_at with
  | None => now w - hours (-1)
  | Some u => u
  end.

(** The cache file of [number], when it exists and
    [cache_updated > updated_at]. *)
Definition read_cache (number : Z) (updated_at : Z) (w : World) : option PullRequest :=
  match cache w !! number with
  | Some (cache_updated, pr) => if cache_updated >? updated_at then Some pr else None
  | None => None
  end.

(** [get_pull_cached(repo, number, updated_at)] *)
Definition get_pull_cached (fuel : nat) (repo : Repository) (number : Z)
    (updated_at : option Z) (w : World) : Outcome PullRequest * World :=
  let updated_at := effective_updated_at updated_at w in
  match read_cache number updated_at w with
  | Some pr => (Returned pr, w)
  | None =>
      match fetch fuel repo number w with
      | (Returned pr, w') => (Returned pr, write_cache number pr w')
      | r => r
      end
  end.

(** The first lines of [generate_description]: the pull request that is
    classified.  [except Exception] catches whatever the conversion of the
    last branch part or the fetch raises. *)
Definition resolve_backport (fuel : nat) (repo : Repository) (item : PullRequest)
    (w : World) : Outcome PullRequest * World :=
  if Str.startswith "backport/" (head_ref item) then
    let branch_parts := Str.split "/" (head_ref item) in
    if (length branch_parts =? 3)%nat then
      match Str.int (List.last branch_parts "") with
      | None => (Returned item, w)
      | Some n =>
          match get_pull_cached fuel repo n None w with
          | (Raised _, w') => (Returned item, w')
          | r => r
          end
      end
    else (Returned item, w)
  else (Returned item, w).

(** [generate_description(item, repo)] *)
Definition generate_description (ratio : string -> string -> Z) (fuel : nat)
    (repo : Repository) (item : PullRequest) (w : World)
    : Outcome (option Description) * World :=
  let backport_number := pr_number item in
  match resolve_backport fuel repo item w with
  | (Returned item, w') => (describe ratio backport_number item, w')
  | (Raised e, w') => (Raised e, w')
  | (OutOfFuel, w') => (OutOfFuel, w')
  end.

(** ** Aggregation: the second half of [get_descriptions] *)

(** [descs.sort()]: Python sorts stably and compares with [__lt__] only.
    Insertion from the right puts an element before the equal ones that
    followed it, which is the stable order. *)
Fixpoint insert_sorted (x : Description) (l : list Description) : list Description :=
  match l with
  | [] => [x]
  | y :: l' => if Description_lt y x then y :: insert_sorted x l' else x :: l
  end.

Fixpoint sort (l : list Description) : list Description :=
  match l with
  | [] => []
  | x :: l' => insert_sorted x (sort l')
  end.

(** The body of [for desc in worker.response]. *)
Definition add_description (descriptions : gmap string (list Description))
    (desc : Description) : gmap string (list Description) :=
  let descriptions :=
    match descriptions !! category desc with
    | None => <[category desc := []]> descriptions
    | Some _ => descriptions
    end in
  alter (fun descs => descs ++ [desc]) (category desc) descriptions.

(** [get_descriptions] once the workers are joined: [responses] holds
    [worker.response] for each worker, in the order of [workers]. *)
Definition get_descriptions (responses : list (list Description))
    : gmap string (list Description) :=
  let descriptions :=
    fold_left (fun descriptions response => fold_left add_description response descriptions)
      responses ∅ in
  sort <$> descriptions.


(** ** Vocabulary of the statements *)

(** The three pieces of the entry-header branch of [scan]: the optional
    empty line after the header, the lines the inner loop collects, and
    the lines it leaves to the outer loop. *)
Definition skip_blank (ls : list string) : list string :=
  match ls with
  | l :: ls' => if Str.is_empty l then ls' else ls
  | [] => []
  end.

Fixpoint entry_lines_of (ls : list string) : list string :=
  match ls with
  | l :: ls' => if Str.is_empty l then [] else l :: entry_lines_of ls'
  | [] => []
  end.

Fixpoint after_entry (ls : list string) : list string :=
  match ls with
  | l :: ls' => if Str.is_empty l then ls else after_entry ls'
  | [] => []
  end.

(** A body seen as a sequence of segments: a line that is no header, a
    category block (header, possibly one empty line, the category line),
    or an entry block (header, possibly one empty line, the entry lines,
    the empty line that ends them). *)
Inductive Segment :=
| Noise (line : string)
| CategoryBlock (header : string) (blank : bool) (content : string)
| EntryBlock (header : string) (blank : bool) (content : list string).

Definition opt_blank (blank : bool) : list string :=
  if blank then [""] else [].

Definition segment_lines (seg : Segment) : list string :=
  match seg with
  | Noise l => [l]
  | CategoryBlock h b c => h :: opt_blank b ++ [c]
  | EntryBlock h b es => h :: opt_blank b ++ es ++ [""]
  end.

Definition flatten (segs : list Segment) : list string :=
  concat (map segment_lines segs).

Definition nonblank (l : string) : bool := negb (Str.is_empty l).

Definition well_formed (seg : Segment) : bool :=
  match seg with
  | Noise l => negb (Re.category_header l) && negb (Re.entry_header l)
  | CategoryBlock h _ c => Re.category_header h && nonblank c
  | EntryBlock h _ es =>
      Re.entry_header h && negb (length es =? 0)%nat && forallb nonblank es
  end.

Definition is_category_block (seg : Segment) : bool :=
  match seg with CategoryBlock _ _ _ => true | _ => false end.

Definition is_entry_block (seg : Segment) : bool :=
  match seg with EntryBlock _ _ _ => true | _ => false end.

(** What a segment does to the pair [(category, entry)]. *)
Definition apply_segment (st : string * string) (seg : Segment) : string * string :=
  match seg with
  | Noise _ => st
  | CategoryBlock _ _ c => (Re.strip_list_marker c, st.2)
  | EntryBlock _ _ es => (st.1, Str.join " " es)
  end.

(** How a body ends: with its last segment, or with an entry block that
    no empty line follows, since the body stops there. *)
Inductive Tail :=
| NoTail
| OpenEntry (header : string) (blank : bool) (content : list string).

Definition tail_lines (t : Tail) : list string :=
  match t with
  | NoTail => []
  | OpenEntry h b es => h :: opt_blank b ++ es
  end.

Definition well_formed_tail (t : Tail) : bool :=
  match t with
  | NoTail => true
  | OpenEntry h _ es => Re.entry_header h && forallb nonblank es
  end.

Definition apply_tail (st : string * string) (t : Tail) : string * string :=
  match t with
  | NoTail => st
  | OpenEntry _ _ es => (st.1, Str.join " " es)
  end.

(** The test of the normalization loop: [c] scores at least 90 against
    the category [s]. *)
Definition scores (ratio : string -> string -> Z) (s c : string) : Prop :=
  90 <= ratio (Str.lower s) (Str.lower c).

(** The descriptions of category [k], in their order in [l]. *)
Definition bucket_of (k : string) (l : list Description) : list Description :=
  List.filter (fun d => String.eqb (category d) k) l.

(** Appending [l] to a bucket that may not exist yet. *)
Definition extend (o : option (list Description)) (l : list Description)
    : option (list Description) :=
  match l with
  | [] => o
  | _ => Some (default [] o ++ l)
  end.

(** The order of the pull request numbers. *)
Definition number_le (a b : Description) : Prop := number a <= number b.

(** From the state [w] on, the remote answers the calls for [number] [n]
    times with a rate-limit error, then with [pr]. *)
Definition limited_then (repo : Repository) (number : Z) (w : World) (n : nat)
    (pr : PullRequest) : Prop :=
  (forall k, (k < n)%nat ->
        get_pull repo (calls w + k) number = Failed RateLimitExceededException)
  /\ get_pull repo (calls w + n) number = Fetched pr.

(** A string that does not start with white space. *)
Definition tidy (s : string) : Prop :=
  match s with
  | EmptyString => True
  | String c _ => Char.is_space c = false
  end.

(** ** Data for the examples *)

Definition exact_ratio (a b : string) : Z := if String.eqb a b then 100 else 0.

Definition nobody : NamedUser := {| name := None; login := "u"; user_html_url := "" |}.

Definition mk_pr (n : Z) (t : string) (b : option string) (ref : string) : PullRequest :=
  {| pr_number := n; pr_user := nobody; pr_html_url := ""; title := t; body := b;
     head_ref := ref; merge_commit_sha := "" |}.

Definition mk_desc (n : Z) (e c : string) : Description :=
  {| number := n; user := nobody; html_url := ""; entry := e; category := c |}.

Definition w0 : World := {| now := 0; cache := ∅; calls := 0; sleeps := [] |}.

Definition always (pr : PullRequest) : Repository :=
  {| get_pull := fun _ _ => Fetched pr |}.

(** Rate-limited for the first [n] calls, then [pr]. *)
Definition limited (n : nat) (pr : PullRequest) : Repository :=
  {| get_pull := fun k _ =>
       if (k <? n)%nat then Failed RateLimitExceededException else Fetched pr |}.

(** A line feed, to write bodies line by line. *)
Definition nl : string := String "010" "".

Definition category_block_1 : string := "### Changelog category:" +:+ nl +:+ "- Bug Fix".
Definition category_block_2 : string := "### Changelog category:" +:+ nl +:+ "- Improvement".
Definition entry_block_1 : string := "### Changelog entry:" +:+ nl +:+ "Fixed a crash".
Definition entry_block_2 : string := "### Changelog entry:" +:+ nl +:+ "Made it faster".

Definition old_snapshot : PullRequest := mk_pr 1 "Old title" None "main".
Definition fresh_snapshot : PullRequest := mk_pr 1 "New title" None "main".

(** A state whose cache holds [old_snapshot], written at time 100. *)
Definition w_cached : World :=
  {| now := 200; cache := {[ 1 := (100, old_snapshot) ]}; calls := 0; sleeps := [] |}.

(** A backport of pull request 12345 and its original, whose body says
    that it is not for the changelog and has an entry all the same. *)
Definition backport_snapshot : PullRequest :=
  mk_pr 7 "Backport #12345 to 23.8" None "backport/23.8/12345".

Definition original_snapshot : PullRequest :=
  mk_pr 12345 "Fix typo in a comment"
    (Some ("### Changelog category:" +:+ nl +:+ "- Not for changelog" +:+ nl +:+ nl
           +:+ entry_block_1 +:+ nl))
    "fix-typo".

(** A pull request with the category [BUG FIX] and an entry, and the
    same without an entry. *)
Definition shouting_snapshot : PullRequest :=
  mk_pr 1 "T" (Some ("Changelog category:" +:+ nl +:+ "BUG FIX" +:+ nl +:+ nl
                     +:+ entry_block_1)) "main".

Definition shouting_no_entry_snapshot : PullRequest :=
  mk_pr 1 "T" (Some ("Changelog category:" +:+ nl +:+ "BUG FIX")) "main".

(** * The rest of the script *)

(** ** The git runner *)

(** What [runner.run(cmd)] does: the output of the command, or
    [CalledProcessError].  [git_helper] is another file of the
    repository; its runner is an oracle here. *)
Inductive GitOutcome (A : Type) :=
| Done (a : A)
| CalledProcessError.
Arguments Done {A} a.
Arguments CalledProcessError {A}.

Definition Runner : Type := string -> GitOutcome string.

(** The module variables [FROM_REF] and [TO_REF]. *)
Record Refs := {
  FROM_REF : string;
  TO_REF : string;
}.

(** [check_refs(from_ref, to_ref, with_testing_tags)] *)
Definition check_refs (runner : Runner) (from_ref : option string) (to_ref : string)
    (with_testing_tags : bool) (g : Refs) : GitOutcome unit * Refs :=
  let g := {| FROM_REF := FROM_REF g; TO_REF := to_ref |} in
  match runner ("git rev-parse " +:+ TO_REF g) with
  | CalledProcessError => (CalledProcessError, g)
  | Done _ =>
      match from_ref with
      | None =>
          match runner ("git tag --points-at '" +:+ TO_REF g +:+ "^{}'") with
          | CalledProcessError => (CalledProcessError, g)
          | Done out =>
              let tags := Str.split "010" out in
              let tags := if negb with_testing_tags then tags ++ ["*-testing"] else tags in
              let exclude :=
                Str.join " " (map (fun tag => "--exclude='" +:+ tag +:+ "'") tags) in
              let cmd :=
                "git describe --abbrev=0 --tags " +:+ exclude +:+ " '" +:+ TO_REF g +:+ "'" in
              match runner cmd with
              | CalledProcessError => (CalledProcessError, g)
              | Done ref => (Done tt, {| FROM_REF := ref; TO_REF := TO_REF g |})
              end
          end
      | Some from_ref =>
          match runner ("git rev-parse " +:+ FROM_REF g) with
          | CalledProcessError => (CalledProcessError, g)
          | Done _ => (Done tt, {| FROM_REF := from_ref; TO_REF := TO_REF g |})
          end
      end
  end.

(** [set_sha_in_changelog()]: the new value of [SHA_IN_CHANGELOG]. *)
Definition set_sha_in_changelog (runner : Runner) (g : Refs) : GitOutcome (list string) :=
  match runner ("git log --format=format:%H " +:+ FROM_REF g +:+ ".." +:+ TO_REF g) with
  | CalledProcessError => CalledProcessError
  | Done out => Done (Str.split "010" out)
  end.

(** ** The worker *)

(** The fields of [github.Issue] that the script reads. *)
Record Issue := {
  issue_number : Z;
  issue_updated_at : Z;
}.

(** [Worker.run] for a worker that is the only consumer of the queue:
    [queue] holds the issues still in it, [response] is [self.response].
    An exception ends the thread and leaves [self.response] as it is. *)
Fixpoint Worker_run (ratio : string -> string -> Z) (fuel : nat) (repo : Repository)
    (runner : Runner) (SHA_IN_CHANGELOG : list string)
    (queue : list Issue) (response : list Description) (w : World)
    : Outcome unit * list Description * World :=
  match queue with
  | [] => (Returned tt, response, w)
  | issue :: queue' =>
      match get_pull_cached fuel repo (issue_number issue)
              (Some (issue_updated_at issue)) w with
      | (Returned api_pr, w1) =>
          let merge_commit := merge_commit_sha api_pr in
          match runner ("git rev-parse '" +:+ merge_commit +:+ "'") with
          | CalledProcessError =>
              Worker_run ratio fuel repo runner SHA_IN_CHANGELOG queue' response w1
          | Done _ =>
              if existsb (String.eqb merge_commit) SHA_IN_CHANGELOG then
                match generate_description ratio fuel repo api_pr w1 with
                | (Returned (Some desc), w2) =>
                    Worker_run ratio fuel repo runner SHA_IN_CHANGELOG queue'
                      (response ++ [desc]) w2
                | (Returned None, w2) =>
                    Worker_run ratio fuel repo runner SHA_IN_CHANGELOG queue' response w2
                | (Raised e, w2) => (Raised e, response, w2)
                | (OutOfFuel, w2) => (OutOfFuel, response, w2)
                end
              else Worker_run ratio fuel repo runner SHA_IN_CHANGELOG queue' response w1
          end
      | (Raised e, w1) => (Raised e, response, w1)
      | (OutOfFuel, w1) => (OutOfFuel, response, w1)
      end
  end.

(** ** Rendering *)

Definition is_digit (c : ascii) : bool :=
  let n := Char.code c in ((48 <=? n) && (n <=? 57))%N.

(** The longest prefix of decimal digits: what a greedy [[0-9]*] takes. *)
Fixpoint digits_prefix (s : string) : string :=
  match s with
  | EmptyString => EmptyString
  | String d s' => if is_digit d then String d (digits_prefix s') else EmptyString
  end.

(** The replacement text of both substitutions after [\1], for the digits
    of group 2. *)
Definition issue_link (ds : string) : string :=
  "[#" +:+ ds +:+ "](https://github.com/ClickHouse/ClickHouse/issues/" +:+ ds +:+ ")".

(** [re.sub(r"([^[])#([0-9]{4,})", r"\1[#\2](...issues/\2)", s)]: the
    matches are taken from left to right and do not overlap.  [skip]
    walks over the digits of a match and hands the rest back. *)
Fixpoint link_issue_numbers (s : string) : string :=
  match s with
  | EmptyString => EmptyString
  | String c s' =>
      match s' with
      | String "#" rest =>
          let ds := digits_prefix rest in
          if negb (Ascii.eqb c "[") && (4 <=? String.length ds)%nat then
            String c (issue_link ds) +:+
            (fix skip (r : string) : string :=
               match r with
               | EmptyString => EmptyString
               | String d r' => if is_digit d then skip r' else link_issue_numbers r
               end) rest
          else String c (link_issue_numbers s')
      | _ => String c (link_issue_numbers s')
      end
  end.

(** The pattern text between the two groups of the second substitution.
    It is not escaped: each [.] of it matches any character but a line
    feed. *)
Definition issue_url_pattern : string :=
  "https://github.com/ClickHouse/ClickHouse/issues/".

Fixpoint match_pattern (pat s : string) : option string :=
  match pat with
  | EmptyString => Some s
  | String p pat' =>
      match s with
      | EmptyString => None
      | String c s' =>
          if (if Ascii.eqb p "." then negb (Ascii.eqb c "010") else Ascii.eqb c p)
          then match_pattern pat' s' else None
      end
  end.

(** [re.sub(r"([^(])https://github.com/.../issues/([0-9]{4,})",
    r"\1[#\2](...issues/\2)", s)].  [skip k] walks over the [k]
    characters of the pattern and the digits that follow. *)
Fixpoint link_issue_urls (s : string) : string :=
  match s with
  | EmptyString => EmptyString
  | String c s' =>
      match (if negb (Ascii.eqb c "(") then match_pattern issue_url_pattern s' else None) with
      | Some rest =>
          let ds := digits_prefix rest in
          if (4 <=? String.length ds)%nat then
            String c (issue_link ds) +:+
            (fix skip (k : nat) (r : string) {struct r} : string :=
               match r with
               | EmptyString => EmptyString
               | String d r' =>
                   match k with
                   | S k' => skip k' r'
                   | O => if is_digit d then skip O r' else link_issue_urls r
                   end
               end) (String.length issue_url_pattern) s'
          else String c (link_issue_urls s')
      | None => String c (link_issue_urls s')
      end
  end.

(** What evaluating [self.user.name if self.user.name else self.user.login]
    does at the [k]-th remote call of the run: nothing is raised and the
    attributes are read, or the client raises. *)
Record UserApi := {
  complete : nat -> NamedUser -> option Exn;
}.

(** The [while True] loop of [formatted_entry] that finds [user_name]. *)
Fixpoint user_name (fuel : nat) (api : UserApi) (u : NamedUser) (w : World)
    : Outcome string * World :=
  match fuel with
  | O => (OutOfFuel, w)
  | S fuel' =>
      match complete api (calls w) u with
      | None =>
          (Returned match name u with
                    | Some n => if Str.is_empty n then login u else n
                    | None => login u
                    end,
           count_call w)
      | Some UnknownObjectException => (Returned (login u), count_call w)
      | Some RateLimitExceededException =>
          user_name fuel' api u (sleep_on_rate_limit default_backoff (count_call w))
      | Some e => (Raised e, count_call w)
      end
  end.

(** The line that [formatted_entry] returns, for the user name found. *)
Definition entry_line (d : Description) (user_name : string) : string :=
  "* " +:+ link_issue_urls (link_issue_numbers (entry d))
  +:+ " [#" +:+ Str.of_Z (number d) +:+ "](" +:+ html_url d +:+ ") "
  +:+ "([" +:+ user_name +:+ "](" +:+ user_html_url (user d) +:+ ")).".

(** [Description.formatted_entry] *)
Definition formatted_entry (fuel : nat) (api : UserApi) (d : Description) (w : World)
    : Outcome string * World :=
  match user_name fuel api (user d) w with
  | (Returned n, w') => (Returned (entry_line d n), w')
  | (Raised e, w') => (Raised e, w')
  | (OutOfFuel, w') => (OutOfFuel, w')
  end.

(** One call of [fd.write]. *)
Inductive Chunk :=
| FrontMatter (year : Z) (refs : Refs)
| Header (category : string) (blank : bool)
| EntryLine (line : string)
| Blank.

(** The text a chunk writes.  A header of the second loop ends in two
    line feeds. *)
Definition chunk_text (c : Chunk) : string :=
  match c with
  | FrontMatter year refs =>
      "---" +:+ nl +:+ "sidebar_position: 1" +:+ nl +:+ "sidebar_label: " +:+ Str.of_Z year
      +:+ nl +:+ "---" +:+ nl +:+ nl +:+ "# " +:+ Str.of_Z year +:+ " Changelog" +:+ nl +:+ nl
      +:+ "### ClickHouse release " +:+ TO_REF refs +:+ " FIXME as compared to "
      +:+ FROM_REF refs +:+ nl +:+ nl
  | Header category blank =>
      "#### " +:+ category +:+ nl +:+ (if blank then nl else "")
  | EntryLine line => line +:+ nl
  | Blank => nl
  end.

(** [for desc in descriptions[category]: fd.write(f"{desc.formatted_entry}\n")] *)
Fixpoint write_entries (fuel : nat) (api : UserApi) (descs : list Description)
    (out : list Chunk) (w : World) : Outcome unit * list Chunk * World :=
  match descs with
  | [] => (Returned tt, out, w)
  | d :: descs' =>
      match formatted_entry fuel api d w with
      | (Returned line, w') => write_entries fuel api descs' (out ++ [EntryLine line]) w'
      | (Raised e, w') => (Raised e, out, w')
      | (OutOfFuel, w') => (OutOfFuel, out, w')
      end
  end.

(** A section: the header, the entries, an empty line. *)
Definition write_section (fuel : nat) (api : UserApi) (category : string) (blank : bool)
    (descs : list Description) (out : list Chunk) (w : World)
    : Outcome unit * list Chunk * World :=
  match write_entries fuel api descs (out ++ [Header category blank]) w with
  | (Returned _, out', w') => (Returned tt, out' ++ [Blank], w')
  | r => r
  end.

(** [for category in categories_preferred_order], on the categories still
    to visit; the result carries [seen_categories]. *)
Fixpoint write_preferred (fuel : nat) (api : UserApi)
    (descriptions : gmap string (list Description)) (categories : list string)
    (seen_categories : list string) (out : list Chunk) (w : World)
    : Outcome (list string) * list Chunk * World :=
  match categories with
  | [] => (Returned seen_categories, out, w)
  | category :: categories' =>
      match descriptions !! category with
      | Some descs =>
          match write_section fuel api category false descs out w with
          | (Returned _, out', w') =>
              write_preferred fuel api descriptions categories'
                (seen_categories ++ [category]) out' w'
          | (Raised e, out', w') => (Raised e, out', w')
          | (OutOfFuel, out', w') => (OutOfFuel, out', w')
          end
      | None => write_preferred fuel api descriptions categories' seen_categories out w
      end
  end.

(** [sorted(descriptions)]: the keys in the order of [str], which compares
    code points. *)
Fixpoint insert_key (k : string) (l : list string) : list string :=
  match l with
  | [] => [k]
  | y :: l' => if String.ltb y k then y :: insert_key k l' else k :: l
  end.

Definition sorted_keys (descriptions : gmap string (list Description)) : list string :=
  foldr insert_key [] (map_to_list descriptions).*1.

(** [for category in sorted(descriptions)], on the keys still to visit. *)
Fixpoint write_others (fuel : nat) (api : UserApi)
    (descriptions : gmap string (list Description)) (categories : list string)
    (seen_categories : list string) (out : list Chunk) (w : World)
    : Outcome unit * list Chunk * World :=
  match categories with
  | [] => (Returned tt, out, w)
  | category :: categories' =>
      if negb (existsb (String.eqb category) seen_categories) then
        match write_section fuel api category true
                (default [] (descriptions !! category)) out w with
        | (Returned _, out', w') =>
            write_others fuel api descriptions categories' seen_categories out' w'
        | r => r
        end
      else write_others fuel api descriptions categories' seen_categories out w
  end.

(** [write_changelog(fd, descriptions)]: the calls of [fd.write], in
    order, for the year [date.today().year]. *)
Definition write_changelog (fuel : nat) (api : UserApi) (year : Z) (refs : Refs)
    (descriptions : gmap string (list Description)) (w : World)
    : Outcome unit * list Chunk * World :=
  match write_preferred fuel api descriptions categories_preferred_order []
          [FrontMatter year refs] w with
  | (Returned seen_categories, out, w') =>
      write_others fuel api descriptions (sorted_keys descriptions) seen_categories out w'
  | (Raised e, out, w') => (Raised e, out, w')
  | (OutOfFuel, out, w') => (OutOfFuel, out, w')
  end.

(** The text written to [fd]. *)
Definition output_text (out : list Chunk) : string :=
  String.concat "" (map chunk_text out).

(** The categories of the headers written, in order. *)
Definition headers (out : list Chunk) : list string :=
  omap (fun c => match c with Header category _ => Some category | _ => None end) out.

(** ** Vocabulary of the further statements *)

(** A line as [body_lines] leaves it: no white space at either end, and
    inside only single spaces. *)
Fixpoint normal_from (after_space : bool) (s : string) : bool :=
  match s with
  | EmptyString => negb after_space
  | String c s' =>
      if Char.is_space c then Ascii.eqb c " " && negb after_space && normal_from true s'
      else normal_from false s'
  end.

Definition normal (s : string) : bool :=
  Str.is_empty s || normal_from true s.

(** The character [c] does not occur in [s]. *)
Fixpoint free_of (c : ascii) (s : string) : bool :=
  match s with
  | EmptyString => true
  | String d s' => negb (Ascii.eqb d c) && free_of c s'
  end.

(** What [user_name] finds when nothing is raised. *)
Definition name_or_login (u : NamedUser) : string :=
  match name u with
  | Some n => if Str.is_empty n then login u else n
  | None => login u
  end.

(** The lines of the entries written, in order. *)
Definition entries_written (out : list Chunk) : list string :=
  omap (fun c => match c with EntryLine line => Some line | _ => None end) out.

(** [line] is the line of [d] for one of the two user names that
    [formatted_entry] can find. *)
Definition rendered (d : Description) (line : string) : Prop :=
  line = entry_line d (name_or_login (user d)) \/ line = entry_line d (login (user d)).

(** The category [c] has a bucket. *)
Definition has_bucket (descriptions : gmap string (list Description)) (c : string) : bool :=
  match descriptions !! c with Some _ => true | None => false end.

(** The category [c] is one of the list [cs]: [c in cs]. *)
Definition listed (cs : list string) (c : string) : bool :=
  existsb (String.eqb c) cs.

(** The order of [str]. *)
Definition str_le (a b : string) : Prop := String.leb a b = true.




(** A runner for which [git rev-parse] knows the refs of [known] and no
    other, and every other command fails. *)
Definition git_known (known : list string) : Runner :=
  fun cmd =>
    if existsb (fun ref => String.eqb cmd ("git rev-parse " +:+ ref)) known
    then Done "0123abcd" else CalledProcessError.

Definition api_ok : UserApi := {| complete := fun _ _ => None |}.


(** * Properties *)

(** ** Strings *)

Lemma is_empty_true s : Str.is_empty s = true <-> s = "".
Proof. destruct s; cbn; split; congruence. Qed.

Lemma is_empty_false s : Str.is_empty s = false <-> s <> "".
Proof. destruct s; cbn; split; congruence. Qed.

Lemma skip_head p s :
  match Str.skip p s with
  | EmptyString => True
  | String c _ => p c = false
  end.
Proof.
  induction s as [|c s IH]; cbn; [done|].
  destruct (p c) eqn:E; [exact IH | exact E].
Qed.

Lemma lstrip_tidy s : tidy (Str.lstrip s).
Proof. exact (skip_head Char.is_space s). Qed.

Lemma rstrip_tidy s : tidy s -> tidy (Str.rstrip s).
Proof.
  destruct s as [|c s]; cbn; [done|]. intros Hc.
  by rewrite Hc, andb_false_r.
Qed.

Lemma collapse_ws_tidy s : tidy s -> tidy (Str.collapse_ws s).
Proof. destruct s as [|c s]; cbn; [done|]. intros Hc. by rewrite Hc. Qed.

Lemma strip_tidy s : tidy (Str.strip s).
Proof. apply rstrip_tidy, lstrip_tidy. Qed.

Lemma strip_nonempty s : tidy s -> s <> "" -> Str.strip s <> "".
Proof.
  destruct s as [|c s]; [done|]. cbn. intros Hc _.
  unfold Str.strip, Str.lstrip. cbn. rewrite Hc. cbn.
  by rewrite Hc, andb_false_r.
Qed.

Lemma append_nonempty_r s t : t <> "" -> s +:+ t <> "".
Proof. destruct s; cbn; [done | discriminate]. Qed.

Lemma append_cons c s t : String c s +:+ t = String c (s +:+ t).
Proof. reflexivity. Qed.

Lemma append_nil_l t : "" +:+ t = t.
Proof. reflexivity. Qed.

Lemma append_quote_cons s : exists c r, s +:+ "'" = String c r.
Proof. destruct s as [|c s]; [by exists "'"%char, "" | by exists c, (s +:+ "'")]. Qed.

Lemma rstrip_append_quote s : Str.rstrip (s +:+ "'") = s +:+ "'".
Proof.
  induction s as [|c s IH]; [reflexivity|].
  rewrite append_cons. cbn [Str.rstrip]. rewrite IH.
  destruct (append_quote_cons s) as (a & r & ->). reflexivity.
Qed.

Lemma last_append_quote s : Str.last (s +:+ "'") = Some "'"%char.
Proof.
  induction s as [|c s IH]; [reflexivity|].
  rewrite append_cons. cbn [Str.last]. rewrite IH.
  destruct (append_quote_cons s) as (a & r & ->). reflexivity.
Qed.

Lemma last_None s : Str.last s = None <-> s = "".
Proof.
  split; [|by intros ->].
  induction s as [|c s IH]; [done|]. cbn.
  destruct s; [discriminate|]. intros H. by apply IH in H.
Qed.

Lemma join_tidy ls :
  Forall tidy ls -> forallb nonblank ls = true -> tidy (Str.join " " ls).
Proof.
  intros H. destruct H as [|l ls Hl Hls]; cbn; [done|].
  intros [Hn _]%andb_prop.
  destruct ls; [exact Hl|].
  destruct l; [discriminate | exact Hl].
Qed.

Lemma body_lines_tidy description : Forall tidy (body_lines description).
Proof.
  unfold body_lines. destruct description as [[|c d]|]; try constructor.
  apply Forall_map, Forall_forall. intros x _.
  apply collapse_ws_tidy, strip_tidy.
Qed.

(** ** The two header patterns exclude each other *)

Lemma lit_ci_head a lit s r :
  Str.lit_ci (String a lit) s = Some r ->
  exists c s', s = String c s' /\ Char.lower c = a.
Proof.
  destruct s as [|c s']; cbn; [discriminate|].
  destruct (Ascii.eqb_spec (Char.lower c) a) as [E|]; [|discriminate].
  intros _. by exists c, s'.
Qed.

Lemma lit_ci_clash a b l1 l2 s r :
  a <> b -> Str.lit_ci (String a l1) s = Some r -> Str.lit_ci (String b l2) s = None.
Proof.
  intros Hab (c & s' & -> & Hc)%lit_ci_head. cbn.
  destruct (Ascii.eqb_spec (Char.lower c) b); [congruence | reflexivity].
Qed.

Lemma headers_exclusive line :
  Re.category_header line = true -> Re.entry_header line = false.
Proof.
  unfold Re.category_header, Re.entry_header.
  set (s0 := Str.skip _ line).
  destruct (Str.lit_ci "change" s0) as [s1|] eqn:E1; [|discriminate].
  rewrite (lit_ci_clash "c" "s" _ "hort" _ _ ltac:(discriminate) E1).
  cbn [mbind option_bind Re.matched orb].
  destruct (Str.lit_ci "log" _) as [s2|] eqn:E2; [|discriminate].
  cbn [mbind option_bind].
  destruct (Str.lit_ci "category" _) as [s3|] eqn:E3; [|discriminate].
  by rewrite (lit_ci_clash "c" "e" _ "ntry" _ _ ltac:(discriminate) E3).
Qed.

(** ** Equations of [scan] *)

Lemma scan_noise line rest cat ent :
  well_formed (Noise line) = true ->
  scan (line :: rest) cat ent = scan rest cat ent.
Proof.
  cbn [well_formed]. intros [H1 H2]%andb_prop.
  apply negb_true_iff in H1, H2. cbn [scan]. by rewrite H1, H2.
Qed.

Lemma scan_category_block h b c rest cat ent :
  well_formed (CategoryBlock h b c) = true ->
  scan (segment_lines (CategoryBlock h b c) ++ rest) cat ent
  = scan rest (Re.strip_list_marker c) ent.
Proof.
  cbn [well_formed]. intros [H1 H2]%andb_prop.
  destruct c as [|a c]; [discriminate|].
  destruct b; cbn [segment_lines opt_blank app scan Str.is_empty]; by rewrite H1.
Qed.

Lemma scan_entry_header line rest cat ent :
  Re.entry_header line = true ->
  scan (line :: rest) cat ent
  = scan (after_entry (skip_blank rest)) cat
      (Str.join " " (entry_lines_of (skip_blank rest))).
Proof.
  intros H2.
  assert (H1 : Re.category_header line = false).
  { destruct (Re.category_header line) eqn:E; [|done].
    apply headers_exclusive in E. congruence. }
  cbn [scan]. rewrite H1, H2.
  match goal with
  | |- context [ match rest with [] => ?f _ _ | _ => _ end ] =>
      assert (Hc : forall ls acc,
                 f ls acc
                 = scan (after_entry ls) cat (Str.join " " (acc ++ entry_lines_of ls)))
  end.
  { induction ls as [|l ls IH]; intros acc.
    - cbn. by rewrite app_nil_r.
    - destruct l as [|a l]; cbn [after_entry entry_lines_of Str.is_empty].
      + by rewrite app_nil_r.
      + rewrite IH. by rewrite <- app_assoc. }
  destruct rest as [|l1 rest1]; cbn [skip_blank].
  - exact (Hc [] []).
  - destruct l1 as [|a l1]; [exact (Hc rest1 []) | exact (Hc (String a l1 :: rest1) [])].
Qed.

Lemma entry_lines_of_block es rest :
  forallb nonblank es = true -> entry_lines_of (es ++ "" :: rest) = es.
Proof.
  induction es as [|e es IH]; cbn; [done|].
  intros [He Hes]%andb_prop. destruct e; [discriminate|]. cbn. by rewrite IH.
Qed.

Lemma after_entry_block es rest :
  forallb nonblank es = true -> after_entry (es ++ "" :: rest) = "" :: rest.
Proof.
  induction es as [|e es IH]; cbn; [done|].
  intros [He Hes]%andb_prop. destruct e; [discriminate|]. cbn. by rewrite IH.
Qed.

Lemma scan_blank rest cat ent : scan ("" :: rest) cat ent = scan rest cat ent.
Proof. reflexivity. Qed.

Lemma scan_entry_block h b es rest cat ent :
  well_formed (EntryBlock h b es) = true ->
  scan (segment_lines (EntryBlock h b es) ++ rest) cat ent
  = scan rest cat (Str.join " " es).
Proof.
  cbn [well_formed]. intros [[H1 H2]%andb_prop H3]%andb_prop.
  cbn [segment_lines app]. rewrite scan_entry_header by done.
  assert (Hs : skip_blank ((opt_blank b ++ es ++ [""]) ++ rest) = es ++ "" :: rest).
  { rewrite <- !app_assoc. destruct b; cbn [opt_blank app skip_blank Str.is_empty]; [done|].
    destruct es as [|e es]; [discriminate|]. cbn in H3. apply andb_prop in H3 as [He _].
    destruct e; [discriminate|]. reflexivity. }
  rewrite Hs, entry_lines_of_block, after_entry_block by done.
  apply scan_blank.
Qed.

(** The scan of a well-formed body is the fold of its segments. *)
Lemma scan_segments segs cat ent :
  forallb well_formed segs = true ->
  scan (flatten segs) cat ent = fold_left apply_segment segs (cat, ent).
Proof.
  revert cat ent. induction segs as [|seg segs IH]; intros cat ent; [done|].
  cbn [forallb]. intros [Hw Hws]%andb_prop.
  unfold flatten. cbn [map concat fold_left]. fold (flatten segs).
  destruct seg as [l|h b c|h b es]; cbn [apply_segment fst snd].
  - cbn [segment_lines app]. rewrite scan_noise by done. by apply IH.
  - rewrite scan_category_block by done. by apply IH.
  - rewrite scan_entry_block by done. by apply IH.
Qed.

(** The same with lines after the segments. *)
Lemma scan_segments_app segs rest cat ent :
  forallb well_formed segs = true ->
  scan (flatten segs ++ rest) cat ent
  = scan rest (fold_left apply_segment segs (cat, ent)).1
      (fold_left apply_segment segs (cat, ent)).2.
Proof.
  revert cat ent. induction segs as [|seg segs IH]; intros cat ent; [done|].
  cbn [forallb]. intros [Hw Hws]%andb_prop.
  unfold flatten. cbn [map concat fold_left]. fold (flatten segs).
  rewrite <- app_assoc.
  destruct seg as [l|h b c|h b es]; cbn [apply_segment fst snd].
  - cbn [segment_lines app]. rewrite scan_noise by done. by apply IH.
  - rewrite scan_category_block by done. by apply IH.
  - rewrite scan_entry_block by done. by apply IH.
Qed.

Lemma entry_lines_of_all es :
  forallb nonblank es = true -> entry_lines_of es = es /\ after_entry es = [].
Proof.
  induction es as [|e es IH]; cbn; [done|].
  intros [He Hes]%andb_prop. destruct e; [discriminate|]. cbn.
  destruct (IH Hes) as [-> ->]. done.
Qed.

Lemma skip_blank_open b es :
  forallb nonblank es = true -> skip_blank (opt_blank b ++ es) = es.
Proof.
  intros Hes. destruct b; [done|]. cbn [opt_blank app].
  destruct es as [|e es]; [done|]. cbn in Hes. apply andb_prop in Hes as [He _].
  by destruct e.
Qed.

(** An entry block that ends the body. *)
Lemma scan_tail t cat ent :
  well_formed_tail t = true -> scan (tail_lines t) cat ent = apply_tail (cat, ent) t.
Proof.
  destruct t as [|h b es]; [done|]. cbn [well_formed_tail tail_lines apply_tail fst].
  intros [Hh Hes]%andb_prop. rewrite scan_entry_header by done.
  rewrite skip_blank_open by done. by destruct (entry_lines_of_all es Hes) as [-> ->].
Qed.

(** The scan of a body: the fold of its segments, then its end. *)
Lemma scan_body segs t cat ent :
  forallb well_formed segs = true -> well_formed_tail t = true ->
  scan (flatten segs ++ tail_lines t) cat ent
  = apply_tail (fold_left apply_segment segs (cat, ent)) t.
Proof.
  intros Hsegs Ht. rewrite scan_segments_app by done. rewrite scan_tail by done.
  by destruct (fold_left apply_segment segs (cat, ent)).
Qed.

Lemma flatten_app segs1 segs2 : flatten (segs1 ++ segs2) = flatten segs1 ++ flatten segs2.
Proof. unfold flatten. by rewrite map_app, concat_app. Qed.

Lemma fold_no_category segs st :
  forallb (fun seg => negb (is_category_block seg)) segs = true ->
  (fold_left apply_segment segs st).1 = st.1.
Proof.
  revert st. induction segs as [|seg segs IH]; intros st; [done|].
  cbn [forallb fold_left]. intros [H Hs]%andb_prop. rewrite IH by done.
  by destruct seg.
Qed.

Lemma fold_no_entry segs st :
  forallb (fun seg => negb (is_entry_block seg)) segs = true ->
  (fold_left apply_segment segs st).2 = st.2.
Proof.
  revert st. induction segs as [|seg segs IH]; intros st; [done|].
  cbn [forallb fold_left]. intros [H Hs]%andb_prop. rewrite IH by done.
  by destruct seg.
Qed.

Lemma fold_noise ls st :
  fold_left apply_segment (map Noise ls) st = st.
Proof. revert st. induction ls as [|l ls IH]; intros st; [done|]. cbn. apply IH. Qed.

(** ** Order of the blocks (C3) *)

(** C3, counterexample.  A category block directly followed by an entry
    block gives the pair of their contents; with the two blocks swapped
    the entry loop runs on through the category block, which ends up in
    the entry, and no category is found. *)
Lemma parse_body_swap_counterexample :
  parse_body (Some (category_block_1 +:+ nl +:+ entry_block_1))
    = ("Bug Fix", "Fixed a crash")
  /\ parse_body (Some (entry_block_1 +:+ nl +:+ category_block_1))
    = ("", "Fixed a crash ### Changelog category: - Bug Fix")
  /\ parse_body (Some (category_block_1 +:+ nl +:+ entry_block_1))
    <> parse_body (Some (entry_block_1 +:+ nl +:+ category_block_1)).
Proof. repeat split; vm_compute; congruence. Qed.

(** C3, amended.  In a body made of one category block, one entry block
    whose lines are followed by an empty line or end the body, and lines
    that are no headers, the order of the two blocks does not matter:
    either way the pair is the category line without its list marker and
    the entry lines joined by spaces. *)
Theorem parse_body_swap_blocks
    (d1 d2 : option string) (pre1 mid1 post1 pre2 mid2 post2 : list string)
    (hc : string) (bc : bool) (c : string) (he : string) (be : bool) (es : list string) :
  forallb well_formed (map Noise (pre1 ++ mid1 ++ post1)) = true ->
  forallb well_formed (map Noise (pre2 ++ mid2 ++ post2)) = true ->
  well_formed (CategoryBlock hc bc c) = true ->
  well_formed (EntryBlock he be es) = true ->
  body_lines d1 = flatten (map Noise pre1 ++ CategoryBlock hc bc c ::
                           map Noise mid1 ++ EntryBlock he be es :: map Noise post1)
  \/ body_lines d1 = flatten (map Noise pre1 ++ CategoryBlock hc bc c :: map Noise mid1)
                     ++ tail_lines (OpenEntry he be es) ->
  body_lines d2 = flatten (map Noise pre2 ++ EntryBlock he be es ::
                           map Noise mid2 ++ CategoryBlock hc bc c :: map Noise post2) ->
  parse_body d1 = parse_body d2
  /\ parse_body d1 = (Re.strip_list_marker c, Str.join " " es).
Proof.
  intros Hn1 Hn2 Hc He E1 E2.
  rewrite !map_app, !forallb_app in Hn1, Hn2.
  apply andb_prop in Hn1 as [Hpre1 [Hmid1 Hpost1]%andb_prop].
  apply andb_prop in Hn2 as [Hpre2 [Hmid2 Hpost2]%andb_prop].
  assert (H1 : parse_body d1 = (Re.strip_list_marker c, Str.join " " es)).
  { unfold parse_body. destruct E1 as [E1|E1]; rewrite E1.
    - rewrite scan_segments.
      + rewrite fold_left_app, fold_noise. cbn [fold_left apply_segment].
        rewrite fold_left_app, fold_noise. cbn [fold_left apply_segment].
        by rewrite fold_noise.
      + rewrite forallb_app. cbn [forallb]. rewrite forallb_app. cbn [forallb].
        by rewrite Hpre1, Hmid1, Hpost1, Hc, He.
    - rewrite scan_body.
      + rewrite fold_left_app, fold_noise. cbn [fold_left apply_segment].
        by rewrite fold_noise.
      + rewrite forallb_app. cbn [forallb]. by rewrite Hpre1, Hmid1, Hc.
      + cbn [well_formed well_formed_tail] in *.
        apply andb_prop in He as [[Hh _]%andb_prop Hes]. by rewrite Hh, Hes. }
  assert (H2 : parse_body d2 = (Re.strip_list_marker c, Str.join " " es)).
  { unfold parse_body. rewrite E2, scan_segments.
    - rewrite fold_left_app, fold_noise. cbn [fold_left apply_segment].
      rewrite fold_left_app, fold_noise. cbn [fold_left apply_segment].
      by rewrite fold_noise.
    - rewrite forallb_app. cbn [forallb]. rewrite forallb_app. cbn [forallb].
      by rewrite Hpre2, Hmid2, Hpost2, Hc, He. }
  split; congruence.
Qed.

Lemma parse_body_swap_blocks_witness :
  (parse_body (Some (category_block_1 +:+ nl +:+ nl +:+ entry_block_1))
   = parse_body (Some (entry_block_1 +:+ nl +:+ nl +:+ category_block_1))
   /\ parse_body (Some (category_block_1 +:+ nl +:+ nl +:+ entry_block_1))
      = ("Bug Fix", "Fixed a crash"))
  /\ (parse_body (Some (category_block_1 +:+ nl +:+ nl +:+ entry_block_1 +:+ nl))
      = parse_body (Some (entry_block_1 +:+ nl +:+ nl +:+ category_block_1 +:+ nl))
      /\ parse_body (Some (category_block_1 +:+ nl +:+ nl +:+ entry_block_1 +:+ nl))
         = ("Bug Fix", "Fixed a crash")).
Proof.
  split.
  - apply (parse_body_swap_blocks _ _ [] [""] [] [] [] []
             "### Changelog category:" false "- Bug Fix"
             "### Changelog entry:" false ["Fixed a crash"]);
      try reflexivity. right. reflexivity.
  - apply (parse_body_swap_blocks _ _ [] [""] [] [] [] [""]
             "### Changelog category:" false "- Bug Fix"
             "### Changelog entry:" false ["Fixed a crash"]);
      try reflexivity. left. reflexivity.
Defined.

(** ** Repeated headers (C4) *)

(** C4, counterexample.  With each header present twice, the body gives
    the contents of the second blocks; cut after the first block of each
    header it gives the contents of the first ones. *)
Lemma parse_body_first_occurrence_counterexample :
  let truncated := category_block_1 +:+ nl +:+ nl +:+ entry_block_1 +:+ nl in
  let full := truncated +:+ nl +:+ category_block_2 +:+ nl +:+ nl +:+ entry_block_2 +:+ nl in
  parse_body (Some full) = ("Improvement", "Made it faster")
  /\ parse_body (Some truncated) = ("Bug Fix", "Fixed a crash")
  /\ parse_body (Some full) <> parse_body (Some truncated).
Proof. repeat split; vm_compute; congruence. Qed.

(** C4, amended.  In a body made of well-formed blocks and lines that are
    no headers, where each entry block is followed by an empty line or
    ends the body, the last occurrence of each header is the one
    honoured: the category is the line of the last category block,
    without its list marker, and the entry is the joined lines of the
    last entry block. *)
Theorem parse_body_last_occurrence
    (d : option string) (segs : list Segment) (tail : Tail) :
  forallb well_formed segs = true ->
  well_formed_tail tail = true ->
  body_lines d = flatten segs ++ tail_lines tail ->
  (forall segs1 h b c segs2,
      segs = segs1 ++ CategoryBlock h b c :: segs2 ->
      forallb (fun seg => negb (is_category_block seg)) segs2 = true ->
      (parse_body d).1 = Re.strip_list_marker c)
  /\ (forall segs1 h b es segs2,
      tail = NoTail ->
      segs = segs1 ++ EntryBlock h b es :: segs2 ->
      forallb (fun seg => negb (is_entry_block seg)) segs2 = true ->
      (parse_body d).2 = Str.join " " es)
  /\ (forall h b es,
      tail = OpenEntry h b es ->
      (parse_body d).2 = Str.join " " es).
Proof.
  intros Hw Ht E. unfold parse_body. rewrite E, scan_body by done.
  split; [|split].
  - intros segs1 h b c segs2 -> Hlast.
    rewrite fold_left_app. cbn [fold_left apply_segment].
    destruct tail; cbn [apply_tail fst]; by rewrite fold_no_category.
  - intros segs1 h b es segs2 -> -> Hlast.
    rewrite fold_left_app. cbn [fold_left apply_segment apply_tail].
    by rewrite fold_no_entry.
  - by intros h b es ->.
Qed.

Lemma parse_body_last_occurrence_witness :
  let truncated := category_block_1 +:+ nl +:+ nl +:+ entry_block_1 +:+ nl in
  let open := truncated +:+ nl +:+ category_block_2 +:+ nl +:+ nl +:+ entry_block_2 in
  let closed := open +:+ nl in
  ((parse_body (Some open)).1 = "Improvement"
   /\ (parse_body (Some open)).2 = "Made it faster")
  /\ ((parse_body (Some closed)).1 = "Improvement"
      /\ (parse_body (Some closed)).2 = "Made it faster")
  /\ (parse_body (Some (entry_block_1 +:+ nl +:+ nl +:+ entry_block_2))).2
     = "Made it faster".
Proof.
  intros truncated open closed.
  pose (first_blocks :=
          [CategoryBlock "### Changelog category:" false "- Bug Fix"; Noise "";
           EntryBlock "### Changelog entry:" false ["Fixed a crash"]]).
  pose (c2 := CategoryBlock "### Changelog category:" false "- Improvement").
  pose (e2 := EntryBlock "### Changelog entry:" false ["Made it faster"]).
  pose (t2 := OpenEntry "### Changelog entry:" false ["Made it faster"]).
  destruct (parse_body_last_occurrence (Some open)
              (first_blocks ++ [c2; Noise ""]) t2 eq_refl eq_refl eq_refl)
    as (Hcat1 & _ & Hent1).
  destruct (parse_body_last_occurrence (Some closed)
              (first_blocks ++ [c2; Noise ""; e2]) NoTail eq_refl eq_refl eq_refl)
    as (Hcat2 & Hent2 & _).
  destruct (parse_body_last_occurrence
              (Some (entry_block_1 +:+ nl +:+ nl +:+ entry_block_2))
              [EntryBlock "### Changelog entry:" false ["Fixed a crash"]] t2
              eq_refl eq_refl eq_refl)
    as (_ & _ & Hent3).
  split; [split | split; [split|]].
  - apply (Hcat1 first_blocks "### Changelog category:" false "- Improvement"
             [Noise ""]); reflexivity.
  - apply (Hent1 "### Changelog entry:" false ["Made it faster"]); reflexivity.
  - apply (Hcat2 first_blocks "### Changelog category:" false "- Improvement"
             [Noise ""; e2]); reflexivity.
  - apply (Hent2 (first_blocks ++ [c2; Noise ""]) "### Changelog entry:" false
             ["Made it faster"] []); reflexivity.
  - apply (Hent3 "### Changelog entry:" false ["Made it faster"]); reflexivity.
Defined.

(** ** The normalization loop *)

Section Normalization.

Variable ratio : string -> string -> Z.

Lemma normalize_loop_none cs s :
  Forall (fun c => ~ scores ratio s c) cs -> normalize_loop ratio cs s = s.
Proof.
  induction 1 as [|c cs Hc _ IH]; cbn; [done|].
  destruct (Z.leb_spec 90 (ratio (Str.lower s) (Str.lower c))); [by destruct Hc | exact IH].
Qed.

Lemma normalize_loop_first cs s c :
  In c cs -> scores ratio s c ->
  exists i, cs !! i = Some (normalize_loop ratio cs s)
    /\ scores ratio s (normalize_loop ratio cs s)
    /\ forall j c', (j < i)%nat -> cs !! j = Some c' -> ~ scores ratio s c'.
Proof.
  induction cs as [|c0 cs IH]; cbn [In normalize_loop]; [done|].
  intros Hin Hs.
  destruct (Z.leb_spec 90 (ratio (Str.lower s) (Str.lower c0))) as [H0|H0].
  - exists 0%nat. repeat split; [done|]. intros j c' Hj. lia.
  - destruct Hin as [->|Hin]; [unfold scores in Hs; lia|].
    destruct (IH Hin Hs) as (i & Hi & Hsc & Hbefore).
    exists (S i). repeat split; [done..|].
    intros [|j] c' Hj; cbn.
    + intros [= <-]. unfold scores. lia.
    + apply Hbefore. lia.
Qed.

End Normalization.

(** The loop on its own.  If some canonical category scores at least 90
    against the category [s], both in lower case, the loop yields a
    canonical category that scores at least 90 and that no category
    earlier in the preferred order matches; if none does, [s] is left as
    it is. *)
Theorem normalize_category_first_match (ratio : string -> string -> Z) (s : string) :
  (forall c, In c categories_preferred_order -> scores ratio s c ->
     exists i, categories_preferred_order !! i = Some (normalize_category ratio s)
       /\ scores ratio s (normalize_category ratio s)
       /\ forall j c', (j < i)%nat -> categories_preferred_order !! j = Some c' ->
                       ~ scores ratio s c')
  /\ (Forall (fun c => ~ scores ratio s c) categories_preferred_order ->
      normalize_category ratio s = s).
Proof.
  split.
  - intros c. apply normalize_loop_first.
  - apply normalize_loop_none.
Qed.

Lemma normalize_category_first_match_witness :
  (exists i, categories_preferred_order !! i = Some (normalize_category exact_ratio "BUG FIX")
     /\ scores exact_ratio "BUG FIX" (normalize_category exact_ratio "BUG FIX")
     /\ forall j c', (j < i)%nat -> categories_preferred_order !! j = Some c' ->
                     ~ scores exact_ratio "BUG FIX" c')
  /\ normalize_category exact_ratio "Typo" = "Typo".
Proof.
  split.
  - apply (proj1 (normalize_category_first_match exact_ratio "BUG FIX") "Bug Fix").
    + cbn. tauto.
    + unfold scores. vm_compute. discriminate.
  - apply (proj2 (normalize_category_first_match exact_ratio "Typo")).
    repeat constructor; unfold scores; vm_compute; intros H; by apply H.
Defined.

(** ** Aggregation (C2) *)

Lemma insert_sorted_perm x l : Permutation (insert_sorted x l) (x :: l).
Proof.
  induction l as [|y l IH]; cbn; [done|].
  destruct (Description_lt y x); [|done].
  rewrite IH. apply perm_swap.
Qed.

Lemma sort_perm l : Permutation (sort l) l.
Proof.
  induction l as [|x l IH]; cbn; [done|].
  rewrite insert_sorted_perm. by constructor.
Qed.

Lemma insert_sorted_hd x y l :
  number_le y x -> HdRel number_le y l -> HdRel number_le y (insert_sorted x l).
Proof.
  intros Hyx [|z l' Hz]; cbn; [by constructor|].
  destruct (Description_lt z x); by constructor.
Qed.

Lemma insert_sorted_sorted x l :
  Sorted number_le l -> Sorted number_le (insert_sorted x l).
Proof.
  induction 1 as [|y l Hl IH Hy]; cbn; [by repeat constructor|].
  unfold Description_lt. destruct (Z.ltb_spec (number y) (number x)) as [Hlt|Hge].
  - constructor; [exact IH|]. apply insert_sorted_hd; [unfold number_le; lia | exact Hy].
  - constructor; [by constructor|]. constructor. unfold number_le. lia.
Qed.

Lemma sort_sorted l : Sorted number_le (sort l).
Proof. induction l as [|x l IH]; cbn; [constructor | by apply insert_sorted_sorted]. Qed.

Lemma extend_extend o l1 l2 : extend (extend o l1) l2 = extend o (l1 ++ l2).
Proof.
  destruct l1 as [|x l1]; [done|]. destruct l2 as [|y l2]; cbn.
  - by rewrite app_nil_r.
  - by rewrite <- app_assoc.
Qed.

Lemma add_description_lookup m d k :
  add_description m d !! k = extend (m !! k) (bucket_of k [d]).
Proof.
  unfold add_description, bucket_of. cbn [List.filter].
  destruct (String.eqb_spec (category d) k) as [->|Hne].
  - destruct (m !! k) as [b|] eqn:E.
    + by rewrite lookup_alter_eq, E.
    + by rewrite lookup_alter_eq, lookup_insert_eq.
  - cbn [extend]. rewrite lookup_alter_ne by done.
    destruct (m !! category d); [done|]. by rewrite lookup_insert_ne.
Qed.

Lemma bucket_of_app k l1 l2 : bucket_of k (l1 ++ l2) = bucket_of k l1 ++ bucket_of k l2.
Proof. apply List.filter_app. Qed.

Lemma fold_add_description_lookup l m k :
  fold_left add_description l m !! k = extend (m !! k) (bucket_of k l).
Proof.
  revert m. induction l as [|d l IH]; intros m; [done|].
  cbn [fold_left]. rewrite IH, add_description_lookup, extend_extend.
  by rewrite <- bucket_of_app.
Qed.

Lemma fold_responses_lookup responses m k :
  fold_left (fun descriptions response => fold_left add_description response descriptions)
    responses m !! k
  = extend (m !! k) (bucket_of k (concat responses)).
Proof.
  revert m. induction responses as [|r rs IH]; intros m; [done|].
  cbn [fold_left concat]. rewrite IH, fold_add_description_lookup, extend_extend.
  by rewrite <- bucket_of_app.
Qed.

Lemma get_descriptions_lookup responses k :
  get_descriptions responses !! k
  = sort <$> extend None (bucket_of k (concat responses)).
Proof.
  unfold get_descriptions. rewrite lookup_fmap, fold_responses_lookup.
  by rewrite lookup_empty.
Qed.

(** C2, counterexample.  Two descriptions of one category with the same
    number, as two backports of one pull request give, are both in the
    bucket. *)
Lemma get_descriptions_duplicates_counterexample :
  let d1 := mk_desc 7 "Backported in #8: Fix." "Bug Fix" in
  let d2 := mk_desc 7 "Backported in #9: Fix." "Bug Fix" in
  get_descriptions [[d1]; [d2]] !! "Bug Fix" = Some [d1; d2]
  /\ ~ NoDup (map number [d1; d2]).
Proof.
  split; [reflexivity|].
  intros H. inversion H as [|x l Hx _]; subst. apply Hx. by left.
Qed.

(** C2, amended.  A bucket holds exactly the descriptions of its category
    that the workers returned, those with equal numbers included, sorted
    by number in non-decreasing order; it has no two descriptions with the
    same number if the descriptions handed in have none. *)
Theorem get_descriptions_sorted_buckets
    (responses : list (list Description)) (k : string) (bucket : list Description) :
  get_descriptions responses !! k = Some bucket ->
  Sorted number_le bucket
  /\ Permutation bucket (bucket_of k (concat responses))
  /\ (NoDup (map number (bucket_of k (concat responses))) -> NoDup (map number bucket)).
Proof.
  rewrite get_descriptions_lookup.
  destruct (bucket_of k (concat responses)) as [|d l] eqn:E; [discriminate|].
  cbn [extend default app fmap option_fmap option_map]. intros [= <-].
  split; [apply (sort_sorted (d :: l))|]. split; [apply (sort_perm (d :: l))|].
  intros Hnd. change (insert_sorted d (sort l)) with (sort (d :: l)).
  by rewrite (sort_perm (d :: l)).
Qed.

Lemma get_descriptions_sorted_buckets_witness :
  let d500 := mk_desc 500 "Later." "Bug Fix" in
  let d100 := mk_desc 100 "Earlier." "Bug Fix" in
  let other := mk_desc 300 "Else." "Improvement" in
  Sorted number_le [d100; d500]
  /\ Permutation [d100; d500] (bucket_of "Bug Fix" (concat [[d500; other]; [d100]]))
  /\ (NoDup (map number (bucket_of "Bug Fix" (concat [[d500; other]; [d100]]))) ->
      NoDup (map number [d100; d500])).
Proof.
  intros d500 d100 other.
  apply (get_descriptions_sorted_buckets [[d500; other]; [d100]] "Bug Fix").
  reflexivity.
Defined.

(** ** The fetch loop *)

Section Fetch.

Variables (repo : Repository) (number : Z).

Lemma fetch_limited n : forall fuel w pr,
  limited_then repo number w n pr -> (n < fuel)%nat ->
  fetch fuel repo number w
  = (Returned pr,
     {| now := now w + Z.of_nat n * seconds default_backoff; cache := cache w;
        calls := calls w + n + 1; sleeps := sleeps w ++ repeat default_backoff n |}).
Proof.
  induction n as [|n IH]; intros [|fuel] w pr [Hlim Hok] Hfuel; try lia.
  - cbn [fetch]. rewrite Nat.add_0_r in Hok. rewrite Hok.
    unfold count_call. f_equal. destruct w; cbn. f_equal; [lia | lia | by rewrite app_nil_r].
  - cbn [fetch]. specialize (Hlim 0%nat ltac:(lia)) as H0. rewrite Nat.add_0_r in H0.
    rewrite H0. rewrite (IH fuel _ pr).
    + f_equal. destruct w; cbn. f_equal; [lia | lia | by rewrite <- app_assoc].
    + split; cbn.
      * intros k Hk. rewrite <- Nat.add_succ_r. apply Hlim. lia.
      * by rewrite <- Nat.add_succ_r.
    + lia.
Qed.

Lemma fetch_never_rate_limit fuel : forall w,
  (fetch fuel repo number w).1 <> Raised RateLimitExceededException.
Proof.
  induction fuel as [|fuel IH]; intros w; cbn [fetch]; [done|].
  destruct (get_pull repo (calls w) number) as [pr|[]]; cbn; first [discriminate | apply IH].
Qed.

Lemma fetch_calls_le fuel : forall w, (calls w <= calls (fetch fuel repo number w).2)%nat.
Proof.
  induction fuel as [|fuel IH]; intros w; cbn [fetch]; [done|].
  destruct (get_pull repo (calls w) number) as [pr|[]]; cbn; try lia.
  etransitivity; [|apply IH]. cbn. lia.
Qed.

Lemma fetch_calls_lt fuel w :
  (0 < fuel)%nat -> (calls w < calls (fetch fuel repo number w).2)%nat.
Proof.
  destruct fuel as [|fuel]; [lia|]. intros _. cbn [fetch].
  destruct (get_pull repo (calls w) number) as [pr|[]]; cbn; try lia.
  eapply Nat.lt_le_trans; [|apply fetch_calls_le]. cbn. lia.
Qed.

Lemma fetch_returned fuel : forall w pr,
  (fetch fuel repo number w).1 = Returned pr ->
  exists k, (calls w <= k)%nat /\ get_pull repo k number = Fetched pr.
Proof.
  induction fuel as [|fuel IH]; intros w pr; cbn [fetch]; [done|].
  destruct (get_pull repo (calls w) number) as [pr'|[]] eqn:E; cbn; try done.
  - intros [= <-]. by exists (calls w).
  - intros (k & Hk & Hpr)%IH. exists k. split; [cbn in Hk; lia | done].
Qed.

End Fetch.

Lemma get_pull_cached_miss fuel repo number updated_at w n pr :
  read_cache number (effective_updated_at updated_at w) w = None ->
  limited_then repo number w n pr -> (n < fuel)%nat ->
  get_pull_cached fuel repo number updated_at w
  = (Returned pr,
     {| now := now w + Z.of_nat n * seconds default_backoff;
        cache := <[number := (now w + Z.of_nat n * seconds default_backoff, pr)]> (cache w);
        calls := calls w + n + 1; sleeps := sleeps w ++ repeat default_backoff n |}).
Proof.
  intros Hmiss Hlim Hfuel. unfold get_pull_cached. rewrite Hmiss.
  by rewrite (fetch_limited repo number n fuel w pr).
Qed.

Lemma read_cache_stale number u w :
  cache w !! number = None
  \/ (exists cache_updated old, cache w !! number = Some (cache_updated, old)
                               /\ cache_updated <= u) ->
  read_cache number u w = None.
Proof.
  unfold read_cache. intros [->|(t & old & -> & Ht)]; [done|].
  destruct (Z.gtb_spec t u); [lia | done].
Qed.

(** ** Freshness of the cache (C5) *)

(** C5, counterexample.  The cache file was written at time 100 and the
    caller's time stamp is 100: the write time is not less than it, yet
    the remote is called once and its snapshot, not the cached one, is
    returned. *)
Lemma get_pull_cached_equal_timestamp_counterexample :
  cache w_cached !! 1 = Some (100, old_snapshot)
  /\ 100 >= 100
  /\ (get_pull_cached 1 (always fresh_snapshot) 1 (Some 100) w_cached).1
     = Returned fresh_snapshot
  /\ calls (get_pull_cached 1 (always fresh_snapshot) 1 (Some 100) w_cached).2 = 1%nat
  /\ fresh_snapshot <> old_snapshot.
Proof. repeat split; try reflexivity; [lia | discriminate]. Qed.

(** C5, amended.  When the cache file of [number] exists and was written
    strictly after the caller's time stamp, the cached snapshot is
    returned and nothing else happens: no remote call, no write.  When
    the file is missing or was written at or before that time stamp, and
    the remote answers after [n] rate-limit errors, the fetched snapshot
    is returned after [n + 1] remote calls and is in the cache, stamped
    with the time of the write. *)
Theorem get_pull_cached_freshness (repo : Repository) (number u : Z) (w : World) :
  (forall cache_updated pr fuel,
      cache w !! number = Some (cache_updated, pr) -> u < cache_updated ->
      get_pull_cached fuel repo number (Some u) w = (Returned pr, w))
  /\ (forall n pr fuel,
      cache w !! number = None
      \/ (exists cache_updated old, cache w !! number = Some (cache_updated, old)
                                   /\ cache_updated <= u) ->
      limited_then repo number w n pr -> (n < fuel)%nat ->
      exists w', get_pull_cached fuel repo number (Some u) w = (Returned pr, w')
        /\ cache w' !! number = Some (now w', pr)
        /\ calls w' = (calls w + n + 1)%nat).
Proof.
  split.
  - intros t pr fuel Hfile Hlt. unfold get_pull_cached, read_cache. cbn.
    rewrite Hfile. destruct (Z.gtb_spec t u); [done | lia].
  - intros n pr fuel Hstale%read_cache_stale Hlim Hfuel.
    eexists. split; [by apply get_pull_cached_miss|].
    cbn. by rewrite lookup_insert_eq.
Qed.

Lemma get_pull_cached_freshness_witness :
  get_pull_cached 1 (always fresh_snapshot) 1 (Some 99) w_cached
    = (Returned old_snapshot, w_cached)
  /\ exists w', get_pull_cached 3 (limited 2 fresh_snapshot) 1 (Some 100) w_cached
                = (Returned fresh_snapshot, w')
      /\ cache w' !! 1 = Some (now w', fresh_snapshot)
      /\ calls w' = (calls w_cached + 2 + 1)%nat.
Proof.
  split.
  - apply (proj1 (get_pull_cached_freshness (always fresh_snapshot) 1 99 w_cached)
             100 old_snapshot 1%nat); [reflexivity | lia].
  - apply (proj2 (get_pull_cached_freshness (limited 2 fresh_snapshot) 1 100 w_cached)
             2%nat fresh_snapshot 3%nat).
    + right. exists 100, old_snapshot. split; [reflexivity | lia].
    + split; [|reflexivity]. intros [|[|k]] Hk; [reflexivity | reflexivity | lia].
    + lia.
Defined.

(** ** Rate limits (C6) *)

(** C6.  [get_pull_cached] never raises the rate-limit error.  When it
    gets to the remote and the remote answers with [n] rate-limit errors
    and then with a snapshot, it sleeps [n] times for the default 20
    seconds, makes [n + 1] remote calls and returns that snapshot. *)
Theorem get_pull_cached_rate_limit
    (repo : Repository) (number : Z) (updated_at : option Z) (w : World) :
  (forall fuel,
      (get_pull_cached fuel repo number updated_at w).1
      <> Raised RateLimitExceededException)
  /\ (forall n pr fuel,
      read_cache number (effective_updated_at updated_at w) w = None ->
      limited_then repo number w n pr -> (n < fuel)%nat ->
      exists w', get_pull_cached fuel repo number updated_at w = (Returned pr, w')
        /\ sleeps w' = sleeps w ++ repeat 20 n
        /\ calls w' = (calls w + n + 1)%nat
        /\ now w' = now w + Z.of_nat n * seconds 20).
Proof.
  split.
  - intros fuel. unfold get_pull_cached.
    destruct (read_cache _ _ _); [done|].
    pose proof (fetch_never_rate_limit repo number fuel w) as H.
    destruct (fetch fuel repo number w) as [[pr| |] w']; done.
  - intros n pr fuel Hmiss Hlim Hfuel.
    eexists. split; [by apply get_pull_cached_miss|]. done.
Qed.

Lemma get_pull_cached_rate_limit_witness :
  exists w', get_pull_cached 3 (limited 2 fresh_snapshot) 1 None w0
             = (Returned fresh_snapshot, w')
    /\ sleeps w' = sleeps w0 ++ repeat 20 2
    /\ calls w' = (calls w0 + 2 + 1)%nat
    /\ now w' = now w0 + Z.of_nat 2 * seconds 20.
Proof.
  apply (proj2 (get_pull_cached_rate_limit (limited 2 fresh_snapshot) 1 None w0)
           2%nat fresh_snapshot 3%nat).
  - reflexivity.
  - split; [|reflexivity]. intros [|[|k]] Hk; [reflexivity | reflexivity | lia].
  - lia.
Defined.

(** ** The default time stamp (C9) *)

(** C9.  Without a time stamp from the caller the cache is compared with
    the time one hour ahead.  A cache file not written in the future then
    fails the freshness test: the remote is called, what is returned is a
    snapshot the remote gave, and so it is for the re-fetch of the
    original of a backport. *)
Theorem get_pull_cached_default_refetches
    (repo : Repository) (number : Z) (w : World) (cache_updated : Z) (old : PullRequest) :
  cache w !! number = Some (cache_updated, old) ->
  cache_updated <= now w ->
  effective_updated_at None w = now w + hours 1
  /\ read_cache number (effective_updated_at None w) w = None
  /\ (forall fuel, (0 < fuel)%nat ->
        (calls w < calls (get_pull_cached fuel repo number None w).2)%nat)
  /\ (forall fuel pr,
        (get_pull_cached fuel repo number None w).1 = Returned pr ->
        exists k, (calls w <= k)%nat /\ get_pull repo k number = Fetched pr)
  /\ (forall fuel item,
        Str.startswith "backport/" (head_ref item) = true ->
        length (Str.split "/" (head_ref item)) = 3%nat ->
        Str.int (List.last (Str.split "/" (head_ref item)) "") = Some number ->
        (0 < fuel)%nat ->
        (calls w < calls (resolve_backport fuel repo item w).2)%nat).
Proof.
  intros Hfile Hpast.
  assert (Hdefault : effective_updated_at None w = now w + hours 1).
  { cbn. unfold hours, seconds. lia. }
  assert (Hmiss : read_cache number (effective_updated_at None w) w = None).
  { apply read_cache_stale. right. exists cache_updated, old.
    split; [done|]. rewrite Hdefault. unfold hours, seconds. lia. }
  assert (Hcalls : forall fuel, (0 < fuel)%nat ->
            (calls w < calls (get_pull_cached fuel repo number None w).2)%nat).
  { intros fuel Hfuel. unfold get_pull_cached. rewrite Hmiss.
    pose proof (fetch_calls_lt repo number fuel w Hfuel) as H.
    destruct (fetch fuel repo number w) as [[pr| |] w']; exact H. }
  repeat split; [done..| |].
  - intros fuel pr. unfold get_pull_cached. rewrite Hmiss.
    pose proof (fetch_returned repo number fuel w pr) as H.
    destruct (fetch fuel repo number w) as [[pr'| |] w']; cbn in *; try done.
  - intros fuel item Hprefix Hparts Hint Hfuel. unfold resolve_backport.
    rewrite Hprefix, Hparts, Hint. cbn [Nat.eqb].
    specialize (Hcalls fuel Hfuel).
    destruct (get_pull_cached fuel repo number None w) as [[pr| |] w']; exact Hcalls.
Qed.

Lemma get_pull_cached_default_refetches_witness :
  effective_updated_at None w_cached = now w_cached + hours 1
  /\ read_cache 1 (effective_updated_at None w_cached) w_cached = None
  /\ (forall fuel, (0 < fuel)%nat ->
        (calls w_cached
         < calls (get_pull_cached fuel (always fresh_snapshot) 1 None w_cached).2)%nat)
  /\ (forall fuel pr,
        (get_pull_cached fuel (always fresh_snapshot) 1 None w_cached).1 = Returned pr ->
        exists k, (calls w_cached <= k)%nat
                  /\ get_pull (always fresh_snapshot) k 1 = Fetched pr)
  /\ (forall fuel item,
        Str.startswith "backport/" (head_ref item) = true ->
        length (Str.split "/" (head_ref item)) = 3%nat ->
        Str.int (List.last (Str.split "/" (head_ref item)) "") = Some 1 ->
        (0 < fuel)%nat ->
        (calls w_cached
         < calls (resolve_backport fuel (always fresh_snapshot) item w_cached).2)%nat).
Proof.
  apply (get_pull_cached_default_refetches (always fresh_snapshot) 1 w_cached
           100 old_snapshot); [reflexivity | cbn; lia].
Defined.

(** ** What the entry of a scan looks like *)

Lemma append_assoc s t u : (s +:+ t) +:+ u = s +:+ t +:+ u.
Proof. induction s as [|c s IH]; [done|]. by rewrite !append_cons, IH. Qed.

Lemma skip_blank_length ls : (length (skip_blank ls) <= length ls)%nat.
Proof. destruct ls as [|[|c l] ls]; cbn; lia. Qed.

Lemma skip_blank_Forall (P : string -> Prop) ls : Forall P ls -> Forall P (skip_blank ls).
Proof. intros H. destruct H as [|[|c l] ls' Hl Hls]; cbn; by try constructor. Qed.

Lemma after_entry_length ls : (length (after_entry ls) <= length ls)%nat.
Proof. induction ls as [|[|c l] ls IH]; cbn in *; lia. Qed.

Lemma after_entry_Forall (P : string -> Prop) ls : Forall P ls -> Forall P (after_entry ls).
Proof. induction 1 as [|[|c l] ls' Hl Hls IH]; cbn; by try constructor. Qed.

Lemma entry_lines_of_Forall (P : string -> Prop) ls :
  Forall P ls -> Forall P (entry_lines_of ls).
Proof. induction 1 as [|[|c l] ls' Hl Hls IH]; cbn; by try constructor. Qed.

Lemma entry_lines_of_nonblank ls : forallb nonblank (entry_lines_of ls) = true.
Proof. induction ls as [|[|c l] ls IH]; cbn; done. Qed.

(** Scanning lines that do not start with white space gives an entry
    that does not start with white space. *)
Lemma scan_entry_tidy n : forall lines cat ent,
  (length lines <= n)%nat -> Forall tidy lines -> tidy ent ->
  tidy (scan lines cat ent).2.
Proof.
  induction n as [|n IH]; intros [|line rest] cat ent Hlen Hlines Hent;
    try done; cbn in Hlen; [lia|].
  apply Forall_cons in Hlines as [Hline Hrest].
  destruct (Re.entry_header line) eqn:He.
  - rewrite scan_entry_header by done. apply IH.
    + etransitivity; [apply after_entry_length|].
      etransitivity; [apply skip_blank_length|]. lia.
    + by apply after_entry_Forall, skip_blank_Forall.
    + apply join_tidy; [|apply entry_lines_of_nonblank].
      by apply entry_lines_of_Forall, skip_blank_Forall.
  - cbn [scan]. rewrite He. destruct (Re.category_header line).
    + destruct rest as [|l1 rest1]; [done|].
      apply Forall_cons in Hrest as [_ Hrest1]. cbn in Hlen.
      destruct l1 as [|c l1]; cbn [Str.is_empty].
      * destruct rest1 as [|l2 rest2]; [done|].
        apply Forall_cons in Hrest1 as [_ Hrest2]. cbn in Hlen.
        apply IH; [lia | done | done].
      * apply IH; [lia | done | done].
    + apply IH; [lia | done | done].
Qed.

Lemma parse_body_entry_tidy description : tidy (parse_body description).2.
Proof.
  unfold parse_body. eapply scan_entry_tidy; [reflexivity | apply body_lines_tidy | done].
Qed.

Lemma parse_body_empty description :
  description = None \/ description = Some "" -> parse_body description = ("", "").
Proof. by intros [->| ->]. Qed.

Lemma no_entry_text_strip t :
  Str.strip ("NO CL ENTRY:  '" +:+ t +:+ "'") = "NO CL ENTRY:  '" +:+ t +:+ "'".
Proof.
  unfold Str.strip. replace (Str.lstrip ("NO CL ENTRY:  '" +:+ t +:+ "'"))
    with (("NO CL ENTRY:  '" +:+ t) +:+ "'") by (by rewrite append_assoc).
  by rewrite rstrip_append_quote, append_assoc.
Qed.

Lemma no_entry_text_last t :
  Str.last ("NO CL ENTRY:  '" +:+ t +:+ "'") = Some "'"%char.
Proof. by rewrite <- append_assoc, last_append_quote. Qed.

Lemma before_period_rule_nonempty backport_number item category entry :
  tidy entry -> (before_period_rule backport_number item category entry).2 <> "".
Proof.
  intros Hent. unfold before_period_rule.
  destruct (negb (backport_number =? pr_number item)).
  - rewrite append_cons. cbn [Str.is_empty snd]. by apply strip_nonempty.
  - destruct entry as [|c entry]; cbn [Str.is_empty snd].
    + rewrite no_entry_text_strip. by rewrite append_cons.
    + by apply strip_nonempty.
Qed.

(** ** The category of the description returned (C1) *)

Lemma before_period_rule_category backport_number item category entry :
  (before_period_rule backport_number item category entry).1
  = if (backport_number =? pr_number item) && Str.is_empty entry
    then "NO CL ENTRY" else category.
Proof.
  unfold before_period_rule.
  destruct (backport_number =? pr_number item); cbn [negb andb].
  - by destruct entry.
  - by rewrite append_cons.
Qed.

(** C1, counterexample.  The category found in the body is [BUG FIX],
    which scores 100 against the canonical [Bug Fix], and the body has no
    entry: the description returned has the category [NO CL ENTRY], which
    is no canonical category. *)
Lemma generate_description_empty_entry_category_counterexample :
  (parse_body (body shouting_no_entry_snapshot)).1 = "BUG FIX"
  /\ In "Bug Fix" categories_preferred_order
  /\ scores exact_ratio "BUG FIX" "Bug Fix"
  /\ (generate_description exact_ratio 0 (always shouting_no_entry_snapshot)
        shouting_no_entry_snapshot w0).1
     = Returned (Some (mk_desc 1 "NO CL ENTRY:  'T'." "NO CL ENTRY"))
  /\ ~ In "NO CL ENTRY" categories_preferred_order.
Proof.
  split; [reflexivity|]. split; [cbn; tauto|].
  split; [unfold scores; vm_compute; discriminate|]. split; [reflexivity|].
  cbn. intuition discriminate.
Qed.

(** C1, amended.  For a pull request that neither filter takes out, let
    [s] be the category found in the body ([NO CL CATEGORY] when there is
    none), or the sentinel [NO CL ENTRY] when the entry is empty, that is
    when the body has no entry and the pull request is not a resolved
    backport.  [generate_description] returns a description; if some
    canonical category scores at least 90 against [s], both in lower
    case, its category is the first canonical category of the preferred
    order that does; if none does, its category is [s]. *)
Theorem generate_description_normalized_category
    (ratio : string -> string -> Z) (fuel : nat) (repo : Repository)
    (item item' : PullRequest) (w w' : World) :
  resolve_backport fuel repo item w = (Returned item', w') ->
  Re.not_for_changelog (default_category (parse_body (body item')).1) = false ->
  Re.documentation (default_category (parse_body (body item')).1) = false ->
  let s :=
    if (pr_number item =? pr_number item') && Str.is_empty (parse_body (body item')).2
    then "NO CL ENTRY" else default_category (parse_body (body item')).1 in
  exists d,
    generate_description ratio fuel repo item w = (Returned (Some d), w')
    /\ (forall c, In c categories_preferred_order -> scores ratio s c ->
          exists i, categories_preferred_order !! i = Some (category d)
            /\ scores ratio s (category d)
            /\ forall j c', (j < i)%nat -> categories_preferred_order !! j = Some c' ->
                            ~ scores ratio s c')
    /\ (Forall (fun c => ~ scores ratio s c) categories_preferred_order ->
        category d = s).
Proof.
  intros Hres Hnfc Hdoc s. unfold generate_description, describe. rewrite Hres.
  pose proof (parse_body_entry_tidy (body item')) as Htidy.
  destruct (parse_body (body item')) as [category0 entry0]. cbn [fst snd] in *.
  rewrite Hnfc, Hdoc.
  pose proof (before_period_rule_nonempty (pr_number item) item'
                (default_category category0) entry0 Htidy) as Hne.
  pose proof (before_period_rule_category (pr_number item) item'
                (default_category category0) entry0) as Hcat.
  fold s in Hcat.
  destruct (before_period_rule _ _ _ _) as [category1 entry1]. cbn [fst snd] in *.
  subst category1.
  destruct (Str.last entry1) as [c|] eqn:E; [|by apply last_None in E].
  eexists. split; [reflexivity|]. cbn [category]. unfold normalize_category. split.
  - intros c0. apply normalize_loop_first.
  - apply normalize_loop_none.
Qed.

Lemma generate_description_normalized_category_witness :
  (exists d,
      generate_description exact_ratio 0 (always old_snapshot) shouting_snapshot w0
      = (Returned (Some d), w0)
      /\ (forall c, In c categories_preferred_order -> scores exact_ratio "BUG FIX" c ->
            exists i, categories_preferred_order !! i = Some (category d)
              /\ scores exact_ratio "BUG FIX" (category d)
              /\ forall j c', (j < i)%nat -> categories_preferred_order !! j = Some c' ->
                              ~ scores exact_ratio "BUG FIX" c')
      /\ (Forall (fun c => ~ scores exact_ratio "BUG FIX" c) categories_preferred_order ->
          category d = "BUG FIX"))
  /\ (exists d,
      generate_description exact_ratio 0 (always old_snapshot)
        shouting_no_entry_snapshot w0
      = (Returned (Some d), w0)
      /\ (forall c, In c categories_preferred_order -> scores exact_ratio "NO CL ENTRY" c ->
            exists i, categories_preferred_order !! i = Some (category d)
              /\ scores exact_ratio "NO CL ENTRY" (category d)
              /\ forall j c', (j < i)%nat -> categories_preferred_order !! j = Some c' ->
                              ~ scores exact_ratio "NO CL ENTRY" c')
      /\ (Forall (fun c => ~ scores exact_ratio "NO CL ENTRY" c)
            categories_preferred_order ->
          category d = "NO CL ENTRY")).
Proof.
  split.
  - apply (generate_description_normalized_category exact_ratio 0 (always old_snapshot)
             shouting_snapshot shouting_snapshot w0 w0); reflexivity.
  - apply (generate_description_normalized_category exact_ratio 0 (always old_snapshot)
             shouting_no_entry_snapshot shouting_no_entry_snapshot w0 w0); reflexivity.
Defined.

(** ** Empty body (C7) *)

(** C7, counterexample.  For an empty body and the title [Fix typo.] the
    entry has two spaces after the colon and a period after the closing
    quote, although the title ends in a period: it is neither of the
    texts the single-space form allows. *)
Lemma generate_description_no_entry_text_counterexample :
  let item := mk_pr 1 "Fix typo." None "main" in
  (generate_description exact_ratio 0 (always item) item w0).1
    = Returned (Some (mk_desc 1 "NO CL ENTRY:  'Fix typo.'." "NO CL ENTRY"))
  /\ "NO CL ENTRY:  'Fix typo.'." <> "NO CL ENTRY: 'Fix typo.'"
  /\ "NO CL ENTRY:  'Fix typo.'." <> "NO CL ENTRY: 'Fix typo.'.".
Proof. intros item. split; [reflexivity|]. split; discriminate. Qed.

(** C7, amended.  For a pull request with an empty or absent body that
    is classified as itself, the category is first [NO CL CATEGORY]; the
    description returned has the category [NO CL ENTRY], when that name
    scores below 90 against every canonical category, and the entry
    [NO CL ENTRY:  '<title>'.], with two spaces after the colon and a
    period after the closing quote whatever the title ends in. *)
Theorem generate_description_empty_body
    (ratio : string -> string -> Z) (fuel : nat) (repo : Repository)
    (item : PullRequest) (w w' : World) :
  body item = None \/ body item = Some "" ->
  resolve_backport fuel repo item w = (Returned item, w') ->
  Forall (fun c => ~ scores ratio "NO CL ENTRY" c) categories_preferred_order ->
  default_category (parse_body (body item)).1 = "NO CL CATEGORY"
  /\ generate_description ratio fuel repo item w
     = (Returned (Some {| number := pr_number item; user := pr_user item;
                          html_url := pr_html_url item;
                          entry := "NO CL ENTRY:  '" +:+ title item +:+ "'.";
                          category := "NO CL ENTRY" |}), w').
Proof.
  intros Hbody Hres Hratio.
  rewrite (parse_body_empty _ Hbody). split; [reflexivity|].
  unfold generate_description, describe. rewrite Hres, (parse_body_empty _ Hbody).
  cbn [default_category Str.is_empty]. 
  replace (Re.not_for_changelog "NO CL CATEGORY") with false by reflexivity.
  replace (Re.documentation "NO CL CATEGORY") with false by reflexivity.
  unfold before_period_rule. rewrite Z.eqb_refl. cbn [negb Str.is_empty].
  rewrite no_entry_text_strip, no_entry_text_last.
  replace (negb (Ascii.eqb "'" ".")) with true by reflexivity.
  unfold normalize_category. rewrite normalize_loop_none by done.
  by rewrite !append_assoc.
Qed.

Lemma generate_description_empty_body_witness :
  default_category (parse_body (body (mk_pr 1 "Fix typo" (Some "") "main"))).1
    = "NO CL CATEGORY"
  /\ generate_description exact_ratio 0 (always old_snapshot)
       (mk_pr 1 "Fix typo" (Some "") "main") w0
     = (Returned (Some (mk_desc 1 ("NO CL ENTRY:  '" +:+ "Fix typo" +:+ "'.") "NO CL ENTRY")),
        w0).
Proof.
  apply (generate_description_empty_body exact_ratio 0 (always old_snapshot)
           (mk_pr 1 "Fix typo" (Some "") "main") w0 w0).
  - by right.
  - reflexivity.
  - repeat constructor; unfold scores; vm_compute; intros H; by apply H.
Defined.

(** ** Not for the changelog (C8) *)

Lemma not_for_changelog_default category :
  Re.not_for_changelog category = true -> default_category category = category.
Proof. destruct category; [discriminate | reflexivity]. Qed.

(** C8.  When the category found in the body of the classified pull
    request matches the not-for-changelog pattern, the description is
    that pull request's number, user and URL with its title as the entry
    and the sentinel as the category: the entry of the body, the backport
    prefix, the period and the normalization play no part. *)
Theorem generate_description_not_for_changelog
    (ratio : string -> string -> Z) (fuel : nat) (repo : Repository)
    (item item' : PullRequest) (w w' : World) :
  resolve_backport fuel repo item w = (Returned item', w') ->
  Re.not_for_changelog (parse_body (body item')).1 = true ->
  generate_description ratio fuel repo item w
  = (Returned (Some {| number := pr_number item'; user := pr_user item';
                       html_url := pr_html_url item'; entry := title item';
                       category := "NOT FOR CHANGELOG / INSIGNIFICANT" |}), w').
Proof.
  intros Hres Hmatch. unfold generate_description, describe. rewrite Hres.
  destruct (parse_body (body item')) as [category entry]. cbn [fst] in Hmatch.
  by rewrite (not_for_changelog_default _ Hmatch), Hmatch.
Qed.

Lemma generate_description_not_for_changelog_witness :
  generate_description exact_ratio 1 (always original_snapshot) backport_snapshot w0
  = (Returned (Some (mk_desc 12345 "Fix typo in a comment"
                       "NOT FOR CHANGELOG / INSIGNIFICANT")),
     (resolve_backport 1 (always original_snapshot) backport_snapshot w0).2).
Proof.
  apply (generate_description_not_for_changelog exact_ratio 1 (always original_snapshot)
           backport_snapshot original_snapshot w0); reflexivity.
Defined.

(** ** The trailing-period rule (C10) *)

Lemma describe_no_index_error ratio backport_number item :
  describe ratio backport_number item <> Raised IndexError.
Proof.
  unfold describe.
  pose proof (parse_body_entry_tidy (body item)) as Htidy.
  destruct (parse_body (body item)) as [category entry]. cbn [snd] in Htidy.
  destruct (Re.not_for_changelog _); [done|].
  destruct (Re.documentation _); [done|].
  pose proof (before_period_rule_nonempty backport_number item
                (default_category category) entry Htidy) as Hne.
  destruct (before_period_rule _ _ _ _) as [category' entry']. cbn [snd] in Hne.
  destruct (Str.last entry') eqn:E; [done|]. by apply last_None in E.
Qed.

(** C10.  Where the trailing-period rule is reached the entry is not
    empty, its last character exists, and neither [describe] nor
    [generate_description] raises [IndexError]. *)
Theorem trailing_period_rule_safe
    (ratio : string -> string -> Z) (backport_number : Z) (item : PullRequest) :
  (forall category,
      let entry := (before_period_rule backport_number item category
                      (parse_body (body item)).2).2 in
      entry <> "" /\ exists c, Str.last entry = Some c)
  /\ describe ratio backport_number item <> Raised IndexError
  /\ (forall fuel repo w,
        (generate_description ratio fuel repo item w).1 <> Raised IndexError).
Proof.
  split; [|split].
  - intros category entry.
    assert (Hne : entry <> "").
    { apply before_period_rule_nonempty, parse_body_entry_tidy. }
    split; [done|]. destruct (Str.last entry) as [c|] eqn:E; [by exists c|].
    by apply last_None in E.
  - apply describe_no_index_error.
  - intros fuel repo w. unfold generate_description.
    assert (Hres : forall e, (resolve_backport fuel repo item w).1 <> Raised e).
    { intros e. unfold resolve_backport.
      repeat match goal with
             | |- context [ if ?b then _ else _ ] => destruct b
             | |- context [ match ?o with Some _ => _ | None => _ end ] => destruct o
             end; try done.
      destruct (get_pull_cached _ _ _ _ _) as [[pr| |] w1]; done. }
    destruct (resolve_backport fuel repo item w) as [[item'|e|] w1]; cbn.
    + apply describe_no_index_error.
    + by destruct (Hres e).
    + done.
Qed.

(** ** Scenarios *)

Example scenario_inline_header :
  describe exact_ratio 1
    (mk_pr 1 "T" (Some ("Changelog category:" +:+ nl +:+ "Bug Fix" +:+ nl +:+ nl
                        +:+ "Changelog entry:" +:+ nl +:+ "Fixed a crash")) "main")
  = Returned (Some (mk_desc 1 "Fixed a crash." "Bug Fix")).
Proof. reflexivity. Qed.

Example scenario_backport :
  (generate_description exact_ratio 1
     (always (mk_pr 12345 "Original"
                (Some ("Changelog category:" +:+ nl +:+ "Improvement" +:+ nl +:+ nl
                       +:+ "Changelog entry:" +:+ nl +:+ "Fix X")) "fix-x"))
     backport_snapshot w0).1
  = Returned (Some (mk_desc 12345 "Backported in #7: Fix X." "Improvement")).
Proof. reflexivity. Qed.

Example scenario_documentation :
  describe exact_ratio 1
    (mk_pr 1 "T" (Some ("Changelog category:" +:+ nl +:+ "Documentation")) "main")
  = Returned None.
Proof. reflexivity. Qed.

Example scenario_sort :
  sort [mk_desc 500 "b." "Bug Fix"; mk_desc 100 "a." "Bug Fix"]
  = [mk_desc 100 "a." "Bug Fix"; mk_desc 500 "b." "Bug Fix"].
Proof. reflexivity. Qed.

Example scenario_int :
  Str.int "12345" = Some 12345 /\ Str.int "1_0" = Some 10 /\ Str.int "23.8" = None
  /\ Str.int " -0012 " = Some (-12) /\ Str.int "+ 7" = None /\ Str.int "1__0" = None
  /\ Str.int (String "031" "7") = None /\ Str.int (String "160" "7") = Some 7.
Proof. repeat split; reflexivity. Qed.

(** * Further properties *)

(** ** Shape of the lines, the entry and the category *)

Lemma last_cons c s :
  Str.last (String c s) = match s with EmptyString => Some c | _ => Str.last s end.
Proof. by destruct s. Qed.

Lemma rstrip_last s :
  Str.rstrip s = "" \/ exists c, Str.last (Str.rstrip s) = Some c /\ Char.is_space c = false.
Proof.
  induction s as [|c s IH]; [by left|]. cbn [Str.rstrip].
  destruct (Str.rstrip s) as [|a r] eqn:E; cbn [Str.is_empty andb].
  - destruct (Char.is_space c) eqn:Ec; [by left|]. right. by exists c.
  - right. destruct IH as [|IH]; [done|]. by rewrite last_cons.
Qed.

Lemma collapse_ws_normal_from s : forall b,
  (exists c, Str.last s = Some c /\ Char.is_space c = false) ->
  (b = true -> tidy s) ->
  normal_from b (Str.collapse_ws s) = true.
Proof.
  induction s as [|c s IH]; intros b (c0 & Hlast & Hc0) Hb; [done|].
  rewrite last_cons in Hlast. cbn [Str.collapse_ws].
  destruct (Char.is_space c) eqn:Ec.
  - destruct b; [specialize (Hb eq_refl); cbn in Hb; congruence|].
    destruct s as [|c' s']; [congruence|].
    destruct (Char.is_space c') eqn:Ec'.
    + apply IH; [by exists c0 | done].
    + cbn [normal_from]. replace (Char.is_space " ") with true by reflexivity.
      cbn. apply IH; [by exists c0 | by intros _].
  - cbn [normal_from]. rewrite Ec.
    destruct s as [|c' s']; [done|]. apply IH; [by exists c0 | done].
Qed.

Lemma strip_collapse_normal x : normal (Str.collapse_ws (Str.strip x)) = true.
Proof.
  unfold normal, Str.strip. destruct (rstrip_last (Str.lstrip x)) as [E|Hlast].
  - by rewrite E.
  - rewrite (collapse_ws_normal_from _ true Hlast); [apply orb_true_r|].
    intros _. apply strip_tidy.
Qed.

Lemma normal_from_app s : forall b t,
  normal_from b s = true -> s <> "" -> normal_from true t = true ->
  normal_from b (s +:+ " " +:+ t) = true.
Proof.
  induction s as [|c s IH]; intros b t Hs Hne Ht; [done|].
  rewrite append_cons. cbn [normal_from] in *.
  destruct (Char.is_space c).
  - apply andb_prop in Hs as [Hc Hs]. rewrite Hc. cbn.
    apply IH; [done | by intros -> | done].
  - destruct s as [|c' s']; [|by apply IH].
    rewrite append_nil_l, append_cons, append_nil_l. cbn [normal_from].
    replace (Char.is_space " ") with true by reflexivity. by rewrite Ht.
Qed.

Lemma join_cons2 sep l l' ls :
  Str.join sep (l :: l' :: ls) = l +:+ sep +:+ Str.join sep (l' :: ls).
Proof. reflexivity. Qed.

Lemma join_normal ls :
  Forall (fun l => normal l = true) ls -> forallb nonblank ls = true ->
  normal (Str.join " " ls) = true.
Proof.
  induction 1 as [|l ls Hl Hls IH]; [done|]. cbn [forallb].
  intros [Hn Hns]%andb_prop.
  destruct ls as [|l' ls']; [done|]. rewrite join_cons2.
  specialize (IH Hns). cbn [forallb] in Hns. apply andb_prop in Hns as [Hn' _].
  destruct l as [|c l]; [done|]. unfold normal in Hl. cbn [Str.is_empty orb] in Hl.
  assert (Hrest : normal_from true (Str.join " " (l' :: ls')) = true).
  { unfold normal in IH. destruct (Str.join " " (l' :: ls')) eqn:E; [|done].
    destruct l' as [|c' l']; [done|]. destruct ls'; [done|].
    by rewrite join_cons2, append_cons in E. }
  unfold normal. rewrite append_cons. cbn [Str.is_empty orb]. rewrite <- append_cons.
  by apply normal_from_app.
Qed.

Lemma rstrip_normal_from s : forall b, normal_from b s = true -> Str.rstrip s = s.
Proof.
  induction s as [|c s IH]; intros b Hs; [done|]. cbn [normal_from Str.rstrip] in *.
  destruct (Char.is_space c).
  - apply andb_prop in Hs as [_ Hs]. rewrite (IH _ Hs).
    destruct s; [discriminate | reflexivity].
  - rewrite (IH _ Hs). by rewrite andb_false_r.
Qed.

Lemma strip_normal s : normal s = true -> Str.strip s = s.
Proof.
  destruct s as [|c s]; [done|]. unfold normal. cbn [Str.is_empty orb]. intros Hs.
  assert (Hc : Char.is_space c = false).
  { cbn [normal_from] in Hs. destruct (Char.is_space c); [|done].
    destruct (Ascii.eqb c " "); discriminate. }
  unfold Str.strip, Str.lstrip. cbn [Str.skip]. rewrite Hc.
  by apply (rstrip_normal_from _ true).
Qed.

Lemma scan_entry_inv (Q P : string -> Prop) :
  (forall ls, Forall Q ls -> forallb nonblank ls = true -> P (Str.join " " ls)) ->
  forall n lines cat ent,
    (length lines <= n)%nat -> Forall Q lines -> P ent -> P (scan lines cat ent).2.
Proof.
  intros Hjoin. induction n as [|n IH]; intros [|line rest] cat ent Hlen Hlines Hent;
    try done; cbn in Hlen; [lia|].
  apply Forall_cons in Hlines as [Hline Hrest].
  destruct (Re.entry_header line) eqn:He.
  - rewrite scan_entry_header by done. apply IH.
    + etransitivity; [apply after_entry_length|].
      etransitivity; [apply skip_blank_length|]. lia.
    + by apply after_entry_Forall, skip_blank_Forall.
    + apply Hjoin; [|apply entry_lines_of_nonblank].
      by apply entry_lines_of_Forall, skip_blank_Forall.
  - cbn [scan]. rewrite He. destruct (Re.category_header line).
    + destruct rest as [|l1 rest1]; [done|].
      apply Forall_cons in Hrest as [_ Hrest1]. cbn in Hlen.
      destruct l1 as [|c l1]; cbn [Str.is_empty].
      * destruct rest1 as [|l2 rest2]; [done|].
        apply Forall_cons in Hrest1 as [_ Hrest2]. cbn in Hlen.
        apply IH; [lia | done | done].
      * apply IH; [lia | done | done].
    + apply IH; [lia | done | done].
Qed.

Lemma scan_category_inv (P : string -> Prop) :
  (forall l, P (Re.strip_list_marker l)) ->
  forall n lines cat ent, (length lines <= n)%nat -> P cat -> P (scan lines cat ent).1.
Proof.
  intros Hstrip. induction n as [|n IH]; intros [|line rest] cat ent Hlen Hcat;
    try done; cbn in Hlen; [lia|].
  destruct (Re.entry_header line) eqn:He.
  - rewrite scan_entry_header by done. apply IH; [|done].
    etransitivity; [apply after_entry_length|].
    etransitivity; [apply skip_blank_length|]. lia.
  - cbn [scan]. rewrite He. destruct (Re.category_header line).
    + destruct rest as [|l1 rest1]; [done|]. cbn in Hlen.
      destruct l1 as [|c l1]; cbn [Str.is_empty].
      * destruct rest1 as [|l2 rest2]; [done|]. cbn in Hlen. apply IH; [lia | done].
      * apply IH; [lia | done].
    + apply IH; [lia | done].
Qed.

Lemma body_lines_all_normal description :
  Forall (fun l => normal l = true) (body_lines description).
Proof.
  unfold body_lines. destruct description as [[|c d]|]; try constructor.
  apply Forall_map, Forall_forall. intros x _. apply strip_collapse_normal.
Qed.

(** X1.  Every line the scan works on is in normal form: it has no white
    space at its ends, and inside it every white-space character is a
    space that follows a character that is none.  In particular
    stripping a line again changes nothing. *)
Theorem body_lines_normal (description : option string) :
  Forall (fun l => normal l = true /\ Str.strip l = l) (body_lines description).
Proof.
  eapply Forall_impl; [apply body_lines_all_normal|].
  intros l Hl. split; [done | by apply strip_normal].
Qed.

(** X2.  The entry found in a body is in normal form as well, so
    [entry.strip()] leaves an entry that comes from the body as it is. *)
Theorem parse_body_entry_normal (description : option string) :
  normal (parse_body description).2 = true
  /\ Str.strip (parse_body description).2 = (parse_body description).2.
Proof.
  assert (H : normal (parse_body description).2 = true).
  { unfold parse_body.
    apply (scan_entry_inv (fun l => normal l = true) (fun e => normal e = true)
             join_normal (length (body_lines description)));
      [done | apply body_lines_all_normal | done]. }
  split; [exact H | by apply strip_normal].
Qed.

Lemma strip_list_marker_head l :
  match Re.strip_list_marker l with
  | EmptyString => True
  | String c _ => Char.in_class "-*" c = false /\ Char.is_space c = false
  end.
Proof.
  unfold Re.strip_list_marker.
  pose proof (skip_head (fun c => Char.in_class "-*" c || Char.is_space c) l) as H.
  destruct (Str.skip _ l); [done|]. by apply orb_false_elim in H.
Qed.

(** X3.  The category found in a body never starts with a list marker
    [-] or [*] nor with white space. *)
Theorem parse_body_category_no_marker (description : option string) :
  match (parse_body description).1 with
  | EmptyString => True
  | String c _ => Char.in_class "-*" c = false /\ Char.is_space c = false
  end.
Proof.
  unfold parse_body.
  exact (scan_category_inv
           (fun s => match s with
                     | EmptyString => True
                     | String c _ => Char.in_class "-*" c = false /\ Char.is_space c = false
                     end)
           strip_list_marker_head (length (body_lines description))
           (body_lines description) "" "" (Nat.le_refl _) I).
Qed.

(** ** What [generate_description] returns *)

Lemma last_append_char s c : Str.last (s +:+ String c "") = Some c.
Proof.
  induction s as [|a s IH]; [reflexivity|].
  rewrite append_cons, last_cons, IH. by destruct s.
Qed.

Lemma rstrip_app a b :
  (exists c, Str.last a = Some c /\ Char.is_space c = false) ->
  Str.rstrip (a +:+ b) = a +:+ Str.rstrip b.
Proof.
  induction a as [|c a IH]; intros (c0 & Hlast & Hc0); [done|].
  rewrite last_cons in Hlast. rewrite !append_cons. cbn [Str.rstrip].
  destruct a as [|c' a'].
  - injection Hlast as ->. rewrite !append_nil_l, Hc0. by rewrite andb_false_r.
  - rewrite IH by (by exists c0). by rewrite append_cons.
Qed.

Lemma documentation_not_for_changelog category :
  Re.documentation category = true -> Re.not_for_changelog category = false.
Proof.
  unfold Re.documentation, Re.not_for_changelog.
  destruct (Str.lit_ci "doc" category) as [r|] eqn:E; [intros _ | discriminate].
  cbn [existsb].
  rewrite (lit_ci_clash "d" "n" _ "on" _ _ ltac:(discriminate) E).
  rewrite (lit_ci_clash "d" "i" _ "n" _ _ ltac:(discriminate) E).
  rewrite (lit_ci_clash "d" "n" _ "ot" _ _ ltac:(discriminate) E).
  by rewrite (lit_ci_clash "d" "u" _ "n" _ _ ltac:(discriminate) E).
Qed.

Lemma normalize_loop_in_or_same ratio cs s :
  In (normalize_loop ratio cs s) cs \/ normalize_loop ratio cs s = s.
Proof.
  induction cs as [|c cs IH]; cbn; [by right|].
  destruct (90 <=? _); [by left; left|]. destruct IH; [left; by right | by right].
Qed.

(** X4.  Outside the not-for-changelog rule, the entry of a description
    ends with a period. *)
Theorem describe_entry_ends_with_period
    (ratio : string -> string -> Z) (backport_number : Z) (item : PullRequest)
    (d : Description) :
  Re.not_for_changelog (default_category (parse_body (body item)).1) = false ->
  describe ratio backport_number item = Returned (Some d) ->
  Str.last (entry d) = Some "."%char.
Proof.
  unfold describe. destruct (parse_body (body item)) as [category0 entry0].
  cbn [fst]. intros ->. destruct (Re.documentation _); [discriminate|].
  destruct (before_period_rule _ _ _ _) as [category1 entry1].
  destruct (Str.last entry1) as [c|] eqn:E; [|discriminate].
  intros [= <-]. cbn [entry].
  destruct (Ascii.eqb_spec c "."); cbn [negb]; [by subst | apply last_append_char].
Qed.

Lemma describe_entry_ends_with_period_witness :
  Str.last (entry (mk_desc 12345 "Backported in #7: Fix X." "Improvement")) = Some "."%char.
Proof.
  apply (describe_entry_ends_with_period exact_ratio 7
           (mk_pr 12345 "Original"
              (Some ("Changelog category:" +:+ nl +:+ "Improvement" +:+ nl +:+ nl
                     +:+ "Changelog entry:" +:+ nl +:+ "Fix X")) "fix-x"));
    reflexivity.
Defined.

(** X5.  A pull request whose category starts with [doc], in any case,
    gives no description, whatever its entry and whether or not it is a
    backport: no category matches both this pattern and the
    not-for-changelog one. *)
Theorem describe_documentation
    (ratio : string -> string -> Z) (backport_number : Z) (item : PullRequest) :
  Re.documentation (parse_body (body item)).1 = true ->
  describe ratio backport_number item = Returned None.
Proof.
  unfold describe. destruct (parse_body (body item)) as [category0 entry0].
  cbn [fst]. intros Hdoc.
  assert (Hsame : default_category category0 = category0) by (by destruct category0).
  by rewrite Hsame, (documentation_not_for_changelog _ Hdoc), Hdoc.
Qed.

Lemma describe_documentation_witness :
  describe exact_ratio 7
    (mk_pr 1 "T" (Some ("Changelog category:" +:+ nl +:+ "- DOCUMENTATION (changelog entry"
                        +:+ " is not required)" +:+ nl +:+ nl +:+ entry_block_1)) "main")
  = Returned None.
Proof. apply describe_documentation. reflexivity. Defined.

(** X6.  For a resolved backport, outside the two filters, the entry
    starts with [Backported in #<number>:], the [NO CL ENTRY] rule never
    applies, the category is the normalized category of the original, and
    the number is the number of the original. *)
Theorem describe_backport_prefix
    (ratio : string -> string -> Z) (backport_number : Z) (item : PullRequest)
    (d : Description) :
  backport_number <> pr_number item ->
  Re.not_for_changelog (default_category (parse_body (body item)).1) = false ->
  describe ratio backport_number item = Returned (Some d) ->
  (exists rest, entry d = "Backported in #" +:+ Str.of_Z backport_number +:+ ":" +:+ rest)
  /\ category d = normalize_category ratio (default_category (parse_body (body item)).1)
  /\ number d = pr_number item.
Proof.
  intros Hne. unfold describe, before_period_rule.
  destruct (parse_body (body item)) as [category0 entry0]. cbn [fst]. intros ->.
  destruct (Re.documentation _); [discriminate|].
  destruct (Z.eqb_spec backport_number (pr_number item)) as [|_]; [done|]. cbn [negb].
  set (prefix := "Backported in #" +:+ Str.of_Z backport_number +:+ ":").
  assert (E : "Backported in #" +:+ Str.of_Z backport_number +:+ ": " +:+ entry0
              = prefix +:+ " " +:+ entry0).
  { unfold prefix. by rewrite !append_assoc. }
  rewrite E. clear E.
  assert (Hempty : Str.is_empty (prefix +:+ " " +:+ entry0) = false).
  { unfold prefix. by rewrite !append_cons. }
  rewrite Hempty.
  assert (Hstrip : Str.strip (prefix +:+ " " +:+ entry0)
                   = prefix +:+ Str.rstrip (" " +:+ entry0)).
  { unfold Str.strip, Str.lstrip.
    replace (Str.skip Char.is_space (prefix +:+ " " +:+ entry0))
      with (prefix +:+ " " +:+ entry0) by (unfold prefix; by rewrite !append_cons).
    apply rstrip_app. exists ":"%char. split; [|reflexivity].
    unfold prefix. rewrite <- append_assoc. apply last_append_char. }
  rewrite Hstrip.
  destruct (Str.last _) as [c|]; [|discriminate]. intros [= <-]. cbn.
  split; [|done]. destruct (negb _).
  - exists (Str.rstrip (" " +:+ entry0) +:+ "."). unfold prefix. by rewrite !append_assoc.
  - exists (Str.rstrip (" " +:+ entry0)). unfold prefix. by rewrite !append_assoc.
Qed.

Lemma describe_backport_prefix_witness :
  (exists rest, entry (mk_desc 12345 "Backported in #7:." "NO CL CATEGORY")
                = "Backported in #" +:+ Str.of_Z 7 +:+ ":" +:+ rest)
  /\ category (mk_desc 12345 "Backported in #7:." "NO CL CATEGORY")
     = normalize_category exact_ratio
         (default_category (parse_body (body (mk_pr 12345 "Original" None "fix-x"))).1)
  /\ number (mk_desc 12345 "Backported in #7:." "NO CL CATEGORY")
     = pr_number (mk_pr 12345 "Original" None "fix-x").
Proof.
  apply (describe_backport_prefix exact_ratio 7 (mk_pr 12345 "Original" None "fix-x"));
    [discriminate | reflexivity | reflexivity].
Defined.

(** X7.  The category of a description is a canonical category, one of
    the two sentinels that the post-processing sets, or the category of
    the body as it was found ([NO CL CATEGORY] when there was none): a
    category that matches nothing is passed on as it is. *)
Theorem describe_category
    (ratio : string -> string -> Z) (backport_number : Z) (item : PullRequest)
    (d : Description) :
  describe ratio backport_number item = Returned (Some d) ->
  In (category d) categories_preferred_order
  \/ category d = "NOT FOR CHANGELOG / INSIGNIFICANT"
  \/ category d = "NO CL ENTRY"
  \/ category d = default_category (parse_body (body item)).1.
Proof.
  unfold describe, before_period_rule.
  destruct (parse_body (body item)) as [category0 entry0]. cbn [fst].
  destruct (Re.not_for_changelog _); [intros [= <-]; by right; left|].
  destruct (Re.documentation _); [discriminate|].
  set (entry1 := if negb _ then _ else entry0).
  destruct (Str.is_empty entry1);
    (destruct (Str.last _); [|discriminate]); intros [= <-]; cbn [category];
    unfold normalize_category;
    match goal with
    | |- context [normalize_loop ratio ?cs ?s] =>
        destruct (normalize_loop_in_or_same ratio cs s) as [Hin| ->]
    end; auto.
Qed.

Lemma describe_category_witness :
  In (category (mk_desc 1 "Fixed a crash." "Tweak")) categories_preferred_order
  \/ category (mk_desc 1 "Fixed a crash." "Tweak") = "NOT FOR CHANGELOG / INSIGNIFICANT"
  \/ category (mk_desc 1 "Fixed a crash." "Tweak") = "NO CL ENTRY"
  \/ category (mk_desc 1 "Fixed a crash." "Tweak")
     = default_category
         (parse_body (body (mk_pr 1 "T" (Some ("Changelog category:" +:+ nl +:+ "Tweak"
                                               +:+ nl +:+ nl +:+ entry_block_1)) "main"))).1.
Proof.
  apply (describe_category exact_ratio 1
           (mk_pr 1 "T" (Some ("Changelog category:" +:+ nl +:+ "Tweak"
                               +:+ nl +:+ nl +:+ entry_block_1)) "main")).
  reflexivity.
Defined.

(** X8.  When every canonical category scores at least 90 against itself
    and none does against another canonical category, normalization
    leaves the canonical categories as they are and normalizing twice is
    normalizing once. *)
Theorem normalize_category_canonical (ratio : string -> string -> Z) :
  (forall c, In c categories_preferred_order -> scores ratio c c) ->
  (forall c c', In c categories_preferred_order -> In c' categories_preferred_order ->
                c <> c' -> ~ scores ratio c c') ->
  (forall c, In c categories_preferred_order -> normalize_category ratio c = c)
  /\ (forall s, normalize_category ratio (normalize_category ratio s)
                = normalize_category ratio s).
Proof.
  intros Hself Hother.
  assert (Hfix : forall c, In c categories_preferred_order -> normalize_category ratio c = c).
  { intros c Hc.
    destruct (normalize_loop_first ratio _ c c Hc (Hself c Hc)) as (i & Hi & Hsc & _).
    fold (normalize_category ratio c) in Hi, Hsc.
    destruct (string_dec c (normalize_category ratio c)) as [E|E]; [done|].
    destruct (Hother c (normalize_category ratio c) Hc); [|done..].
    apply list_elem_of_In, list_elem_of_lookup. by exists i. }
  split; [exact Hfix|]. intros s.
  destruct (normalize_loop_in_or_same ratio categories_preferred_order s) as [Hin|Hsame];
    fold (normalize_category ratio s) in *.
  - by apply Hfix.
  - rewrite Hsame. exact Hsame.
Qed.

Lemma normalize_category_canonical_witness :
  (forall c, In c categories_preferred_order -> normalize_category exact_ratio c = c)
  /\ (forall s, normalize_category exact_ratio (normalize_category exact_ratio s)
                = normalize_category exact_ratio s).
Proof.
  apply (normalize_category_canonical exact_ratio).
  - intros c Hc. cbn in Hc.
    repeat (destruct Hc as [<-|Hc]; [unfold scores; vm_compute; discriminate|]).
    destruct Hc.
  - intros c c' Hc Hc' Hne. cbn in Hc, Hc'.
    repeat (destruct Hc as [<-|Hc];
            [repeat (destruct Hc' as [<-|Hc'];
                     [first [congruence | unfold scores; vm_compute; intros H; by apply H]|]);
             destruct Hc'|]).
    destruct Hc.
Defined.

(** ** Errors of the backport re-fetch *)

Lemma resolve_backport_never_raises fuel repo item w e :
  (resolve_backport fuel repo item w).1 <> Raised e.
Proof.
  unfold resolve_backport.
  destruct (Str.startswith _ _); [|done]. destruct (_ =? _)%nat; [|done].
  destruct (Str.int _); [|done].
  by destruct (get_pull_cached _ _ _ _ _) as [[pr| |] w1].
Qed.

Lemma describe_never_raises ratio backport_number item e :
  describe ratio backport_number item <> Raised e.
Proof.
  unfold describe.
  pose proof (parse_body_entry_tidy (body item)) as Htidy.
  destruct (parse_body (body item)) as [category0 entry0]. cbn [snd] in Htidy.
  destruct (Re.not_for_changelog _); [done|].
  destruct (Re.documentation _); [done|].
  pose proof (before_period_rule_nonempty backport_number item
                (default_category category0) entry0 Htidy) as Hne.
  destruct (before_period_rule _ _ _ _) as [category1 entry1]. cbn [snd] in Hne.
  destruct (Str.last entry1) eqn:E; [done|]. by apply last_None in E.
Qed.

(** X9.  [generate_description] raises nothing: whatever the re-fetch of
    the original raises is caught, and the post-processing raises
    nothing. *)
Theorem generate_description_never_raises
    (ratio : string -> string -> Z) (fuel : nat) (repo : Repository)
    (item : PullRequest) (w : World) (e : Exn) :
  (generate_description ratio fuel repo item w).1 <> Raised e.
Proof.
  unfold generate_description.
  pose proof (resolve_backport_never_raises fuel repo item w) as Hres.
  destruct (resolve_backport fuel repo item w) as [[item'|e'|] w1]; cbn [fst] in *.
  - apply describe_never_raises.
  - by destruct (Hres e').
  - done.
Qed.

(** X10.  A pull request whose branch is not [backport/<x>/<number>] with
    three parts and a number is classified as itself, without a remote
    call; so is a backport whose original cannot be fetched, after the
    calls of the attempt. *)
Theorem generate_description_fallback
    (ratio : string -> string -> Z) (fuel : nat) (repo : Repository)
    (item : PullRequest) (w : World) :
  (Str.startswith "backport/" (head_ref item) = false
   \/ length (Str.split "/" (head_ref item)) <> 3%nat
   \/ Str.int (List.last (Str.split "/" (head_ref item)) "") = None ->
   generate_description ratio fuel repo item w
   = (describe ratio (pr_number item) item, w))
  /\ (forall n e,
        Str.startswith "backport/" (head_ref item) = true ->
        length (Str.split "/" (head_ref item)) = 3%nat ->
        Str.int (List.last (Str.split "/" (head_ref item)) "") = Some n ->
        (get_pull_cached fuel repo n None w).1 = Raised e ->
        generate_description ratio fuel repo item w
        = (describe ratio (pr_number item) item, (get_pull_cached fuel repo n None w).2)).
Proof.
  unfold generate_description, resolve_backport. split.
  - intros [-> | [Hparts | Hint]]; [done| |].
    + destruct (Str.startswith _ _); [|done].
      by destruct (Nat.eqb_spec (length (Str.split "/" (head_ref item))) 3).
    + destruct (Str.startswith _ _); [|done]. destruct (_ =? _)%nat; [|done].
      by rewrite Hint.
  - intros n e -> -> ->. cbn [Nat.eqb].
    destruct (get_pull_cached fuel repo n None w) as [[pr|e'|] w1]; by intros [=].
Qed.

Lemma generate_description_fallback_witness :
  generate_description exact_ratio 1 (always original_snapshot)
    (mk_pr 7 "T" None "backport/23.8/12345/extra") w0
  = (describe exact_ratio 7 (mk_pr 7 "T" None "backport/23.8/12345/extra"), w0)
  /\ generate_description exact_ratio 1 (always original_snapshot)
       (mk_pr 7 "T" None ("backport/23.8/" +:+ String "031" "12345")) w0
     = (describe exact_ratio 7
          (mk_pr 7 "T" None ("backport/23.8/" +:+ String "031" "12345")), w0)
  /\ generate_description exact_ratio 1
       {| get_pull := fun _ _ => Failed UnknownObjectException |} backport_snapshot w0
     = (describe exact_ratio 7 backport_snapshot,
        (get_pull_cached 1 {| get_pull := fun _ _ => Failed UnknownObjectException |}
           12345 None w0).2).
Proof.
  split; [|split].
  - apply (proj1 (generate_description_fallback exact_ratio 1 (always original_snapshot)
                    (mk_pr 7 "T" None "backport/23.8/12345/extra") w0)).
    right. left. vm_compute. discriminate.
  - apply (proj1 (generate_description_fallback exact_ratio 1 (always original_snapshot)
                    (mk_pr 7 "T" None ("backport/23.8/" +:+ String "031" "12345")) w0)).
    right. right. reflexivity.
  - apply (proj2 (generate_description_fallback exact_ratio 1
                    {| get_pull := fun _ _ => Failed UnknownObjectException |}
                    backport_snapshot w0) 12345 UnknownObjectException); reflexivity.
Defined.

(** ** The cache *)

Lemma fetch_cache repo number fuel : forall w,
  cache (fetch fuel repo number w).2 = cache w.
Proof.
  induction fuel as [|fuel IH]; intros w; cbn [fetch]; [done|].
  destruct (get_pull repo (calls w) number) as [pr|[]]; cbn; try done. by rewrite IH.
Qed.

Lemma fetch_raised repo number fuel : forall w e,
  (fetch fuel repo number w).1 = Raised e ->
  exists k, (calls w <= k)%nat /\ get_pull repo k number = Failed e.
Proof.
  induction fuel as [|fuel IH]; intros w e; cbn [fetch]; [done|].
  destruct (get_pull repo (calls w) number) as [pr|e'] eqn:E; [done|].
  destruct e'; cbn; try (intros [= <-]; by exists (calls w)).
  intros (k & Hk & Hpr)%IH. exists k. split; [cbn in Hk; lia | done].
Qed.

(** X11.  What a fetch stores is what a later call reads: after a call
    that went to the remote and returned [pr], the cache file of [number]
    holds [pr], stamped with the current time, and any call whose time
    stamp is older than that returns [pr] and changes nothing. *)
Theorem get_pull_cached_store_then_read
    (fuel : nat) (repo : Repository) (number : Z) (updated_at : option Z)
    (w w' : World) (pr : PullRequest) :
  read_cache number (effective_updated_at updated_at w) w = None ->
  get_pull_cached fuel repo number updated_at w = (Returned pr, w') ->
  cache w' !! number = Some (now w', pr)
  /\ (forall fuel' repo' u,
        u < now w' ->
        get_pull_cached fuel' repo' number (Some u) w' = (Returned pr, w')).
Proof.
  intros Hmiss. unfold get_pull_cached at 1. rewrite Hmiss.
  destruct (fetch fuel repo number w) as [[pr'| |] w1]; try discriminate.
  intros [= -> <-].
  assert (Hfile : cache (write_cache number pr w1) !! number
                  = Some (now (write_cache number pr w1), pr)).
  { cbn. apply lookup_insert_eq. }
  split; [exact Hfile|]. intros fuel' repo' u Hu.
  unfold get_pull_cached, read_cache. cbn [effective_updated_at]. rewrite Hfile.
  destruct (Z.gtb_spec (now (write_cache number pr w1)) u); [done | lia].
Qed.

Lemma get_pull_cached_store_then_read_witness :
  cache (get_pull_cached 3 (limited 2 fresh_snapshot) 1 (Some 100) w_cached).2 !! 1
  = Some (now (get_pull_cached 3 (limited 2 fresh_snapshot) 1 (Some 100) w_cached).2,
          fresh_snapshot)
  /\ (forall fuel' repo' u,
        u < now (get_pull_cached 3 (limited 2 fresh_snapshot) 1 (Some 100) w_cached).2 ->
        get_pull_cached fuel' repo' 1 (Some u)
          (get_pull_cached 3 (limited 2 fresh_snapshot) 1 (Some 100) w_cached).2
        = (Returned fresh_snapshot,
           (get_pull_cached 3 (limited 2 fresh_snapshot) 1 (Some 100) w_cached).2)).
Proof.
  apply (get_pull_cached_store_then_read 3 (limited 2 fresh_snapshot) 1 (Some 100)
           w_cached); reflexivity.
Defined.

(** X12.  A call for one pull request leaves the cache files of the
    others as they are, whatever its outcome. *)
Theorem get_pull_cached_other_keys
    (fuel : nat) (repo : Repository) (number other : Z) (updated_at : option Z)
    (w : World) :
  other <> number ->
  cache (get_pull_cached fuel repo number updated_at w).2 !! other = cache w !! other.
Proof.
  intros Hne. unfold get_pull_cached. destruct (read_cache _ _ _); [done|].
  pose proof (fetch_cache repo number fuel w) as Hcache.
  destruct (fetch fuel repo number w) as [[pr| |] w1]; cbn in *; rewrite <- ?Hcache; try done.
  by rewrite lookup_insert_ne.
Qed.

Lemma get_pull_cached_other_keys_witness :
  cache (get_pull_cached 1 (always fresh_snapshot) 2 None w_cached).2 !! 1
  = cache w_cached !! 1.
Proof. apply get_pull_cached_other_keys. discriminate. Defined.

(** X13.  When [get_pull_cached] raises, the exception is one the remote
    raised for this number, and the cache is as it was: nothing is
    written for a failed fetch. *)
Theorem get_pull_cached_raised
    (fuel : nat) (repo : Repository) (number : Z) (updated_at : option Z)
    (w : World) (e : Exn) :
  (get_pull_cached fuel repo number updated_at w).1 = Raised e ->
  cache (get_pull_cached fuel repo number updated_at w).2 = cache w
  /\ exists k, (calls w <= k)%nat /\ get_pull repo k number = Failed e.
Proof.
  unfold get_pull_cached. destruct (read_cache _ _ _); [done|].
  pose proof (fetch_cache repo number fuel w) as Hcache.
  pose proof (fetch_raised repo number fuel w e) as Hraised.
  destruct (fetch fuel repo number w) as [[pr| |] w1]; cbn in *; try done.
  intros [= ->]. split; [done | by apply Hraised].
Qed.

Lemma get_pull_cached_raised_witness :
  cache (get_pull_cached 1 {| get_pull := fun _ _ => Failed UnknownObjectException |}
           1 (Some 100) w_cached).2 = cache w_cached
  /\ exists k, (calls w_cached <= k)%nat
               /\ get_pull {| get_pull := fun _ _ => Failed UnknownObjectException |} k 1
                  = Failed UnknownObjectException.
Proof.
  apply (get_pull_cached_raised 1 {| get_pull := fun _ _ => Failed UnknownObjectException |}
           1 (Some 100) w_cached UnknownObjectException).
  reflexivity.
Defined.

(** ** More on the aggregation *)

Lemma insert_sorted_filter n x l :
  List.filter (fun d => number d =? n) (insert_sorted x l)
  = List.filter (fun d => number d =? n) (x :: l).
Proof.
  induction l as [|y l IH]; [done|]. cbn [insert_sorted].
  unfold Description_lt. destruct (Z.ltb_spec (number y) (number x)) as [Hlt|]; [|done].
  cbn [List.filter] in *. rewrite IH.
  destruct (Z.eqb_spec (number y) n), (Z.eqb_spec (number x) n); try done. lia.
Qed.

(** X14.  The sort is stable: the descriptions with a given number are,
    after the sort, in the order they had before. *)
Theorem sort_stable (l : list Description) (n : Z) :
  List.filter (fun d => number d =? n) (sort l)
  = List.filter (fun d => number d =? n) l.
Proof.
  induction l as [|x l IH]; [done|]. cbn [sort].
  rewrite insert_sorted_filter. cbn [List.filter]. by rewrite IH.
Qed.

Lemma Sorted_number_le_inv x l :
  Sorted number_le (x :: l) -> Forall (fun y => number x <= number y) l /\ Sorted number_le l.
Proof.
  intros H. apply Sorted_StronglySorted in H; [|intros a b c; unfold number_le; lia].
  inversion H as [|? ? Hs Hall]; subst. split; [done|]. by apply StronglySorted_Sorted.
Qed.

Lemma sorted_permutation_unique l1 : forall l2,
  Sorted number_le l1 -> Sorted number_le l2 -> Permutation l1 l2 ->
  NoDup (map number l1) -> l1 = l2.
Proof.
  induction l1 as [|x l1 IH]; intros l2 H1 H2 Hperm Hnd.
  - by apply Permutation_nil in Hperm.
  - destruct l2 as [|y l2]; [by apply Permutation_sym, Permutation_nil in Hperm|].
    apply Sorted_number_le_inv in H1 as [Hx H1], H2 as [Hy H2].
    cbn [map] in Hnd. apply NoDup_cons in Hnd as [Hfresh Hnd].
    assert (x = y) as <-.
    { assert (Hyin : y ∈ x :: l1) by (rewrite Hperm; by left).
      assert (Hxin : x ∈ y :: l2) by (rewrite <- Hperm; by left).
      apply elem_of_cons in Hyin as [->|Hyin]; [done|].
      apply elem_of_cons in Hxin as [->|Hxin]; [done|].
      rewrite Forall_forall in Hx, Hy.
      specialize (Hx y Hyin). specialize (Hy x Hxin).
      destruct Hfresh. replace (number x) with (number y) by lia.
      by apply list_elem_of_fmap_2. }
    f_equal. apply IH; [done..| |done]. by apply Permutation_cons_inv in Hperm.
Qed.

Lemma bucket_of_Permutation k l1 l2 :
  Permutation l1 l2 -> Permutation (bucket_of k l1) (bucket_of k l2).
Proof.
  unfold bucket_of. induction 1 as [|x l1 l2 _ IH|x y l|l1 l2 l3 _ IH1 _ IH2]; cbn.
  - done.
  - destruct (String.eqb _ _); by rewrite IH.
  - destruct (String.eqb (category x) k), (String.eqb (category y) k); try done. apply perm_swap.
  - by rewrite IH1.
Qed.

Lemma bucket_of_NoDup k l : NoDup (map number l) -> NoDup (map number (bucket_of k l)).
Proof.
  unfold bucket_of. induction l as [|x l IH]; cbn; [done|].
  intros [Hx Hl]%NoDup_cons. destruct (String.eqb _ _); [|by apply IH].
  cbn. apply NoDup_cons. split; [|by apply IH].
  intros Hin. apply Hx. apply list_elem_of_fmap in Hin as (d & -> & Hd).
  apply list_elem_of_fmap_2. apply list_elem_of_In in Hd.
  apply List.filter_In in Hd as [Hd _]. by apply list_elem_of_In.
Qed.

(** X15.  When no two descriptions have the same number, the buckets do
    not depend on which worker returned which description, nor on the
    order in which the workers returned them: the same descriptions in
    any arrangement give the same buckets. *)
Theorem get_descriptions_arrangement (responses1 responses2 : list (list Description)) :
  Permutation (concat responses1) (concat responses2) ->
  NoDup (map number (concat responses1)) ->
  get_descriptions responses1 = get_descriptions responses2.
Proof.
  intros Hperm Hnd. apply map_eq. intros k. rewrite !get_descriptions_lookup.
  pose proof (bucket_of_Permutation k _ _ Hperm) as Hb.
  pose proof (bucket_of_NoDup k _ Hnd) as Hbnd.
  destruct (bucket_of k (concat responses1)) as [|d1 b1] eqn:E1.
  - apply Permutation_nil in Hb. by rewrite Hb.
  - destruct (bucket_of k (concat responses2)) as [|d2 b2] eqn:E2;
      [by apply Permutation_sym, Permutation_nil in Hb|].
    cbn [extend default app fmap option_fmap option_map]. f_equal.
    apply sorted_permutation_unique; [apply sort_sorted.. | |].
    + by rewrite !sort_perm.
    + by rewrite (sort_perm (d1 :: b1)).
Qed.

Lemma get_descriptions_arrangement_witness :
  get_descriptions [[mk_desc 500 "Later." "Bug Fix"; mk_desc 300 "Else." "Other"];
                    [mk_desc 100 "Earlier." "Bug Fix"]]
  = get_descriptions [[mk_desc 100 "Earlier." "Bug Fix"]; [];
                      [mk_desc 300 "Else." "Other"; mk_desc 500 "Later." "Bug Fix"]].
Proof.
  apply get_descriptions_arrangement.
  - cbn. etransitivity; [apply (Permutation_app_comm [_; _] [_])|].
    apply perm_skip, perm_swap.
  - apply (bool_decide_unpack _). reflexivity.
Defined.

(** X16.  A category has a bucket exactly when some description has that
    category, and no bucket is empty. *)
Theorem get_descriptions_keys (responses : list (list Description)) (k : string) :
  (is_Some (get_descriptions responses !! k)
   <-> exists d, In d (concat responses) /\ category d = k)
  /\ get_descriptions responses !! k <> Some [].
Proof.
  rewrite get_descriptions_lookup.
  destruct (bucket_of k (concat responses)) as [|d b] eqn:E; cbn.
  - split; [|done]. split; [by intros [? [=]]|].
    intros (d & Hd & Hk). exfalso.
    assert (Hin : In d (bucket_of k (concat responses))).
    { apply List.filter_In. split; [done|]. by apply String.eqb_eq. }
    by rewrite E in Hin.
  - split.
    + split; [intros _ | by eexists].
      assert (Hin : In d (bucket_of k (concat responses))) by (rewrite E; by left).
      apply List.filter_In in Hin as [Hd Hk]. exists d. split; [done|].
      by apply String.eqb_eq.
    + intros [= H]. apply (f_equal (@length _)) in H.
      pose proof (Permutation_length (insert_sorted_perm d (sort b))) as Hlen.
      rewrite H in Hlen. done.
Qed.

(** ** The worker *)

(** X17.  A worker only appends to its response, at most one description
    for each issue it takes from the queue; and each description it
    appends is what [generate_description] returned for a pull request
    whose merge commit [git rev-parse] resolves and [SHA_IN_CHANGELOG]
    lists. *)
Theorem Worker_run_response
    (ratio : string -> string -> Z) (fuel : nat) (repo : Repository) (runner : Runner)
    (SHA_IN_CHANGELOG : list string) (queue : list Issue) (response : list Description)
    (w : World) :
  exists added,
    (Worker_run ratio fuel repo runner SHA_IN_CHANGELOG queue response w).1.2
    = response ++ added
    /\ (length added <= length queue)%nat
    /\ Forall (fun d => exists pr w1,
                 runner ("git rev-parse '" +:+ merge_commit_sha pr +:+ "'")
                   <> CalledProcessError
                 /\ In (merge_commit_sha pr) SHA_IN_CHANGELOG
                 /\ (generate_description ratio fuel repo pr w1).1 = Returned (Some d))
         added.
Proof.
  revert response w. induction queue as [|issue queue IH]; intros response w.
  - exists []. cbn. rewrite app_nil_r. repeat split; [lia | constructor].
  - cbn [Worker_run].
    destruct (get_pull_cached _ _ _ _ _) as [[api_pr|e|] w1];
      [|exists []; cbn; rewrite app_nil_r; repeat split; [lia | constructor]..].
    destruct (runner _) as [out|] eqn:Hrun.
    + destruct (existsb _ _) eqn:Hsha.
      * destruct (generate_description ratio fuel repo api_pr w1) as [[[d|]|e|] w2] eqn:Hgen;
          [| |exists []; cbn; rewrite app_nil_r; repeat split; [lia | constructor]..].
        -- destruct (IH (response ++ [d]) w2) as (added & -> & Hlen & Hall).
           exists (d :: added). rewrite <- app_assoc. split; [done|]. split; [cbn; lia|].
           constructor; [|done]. exists api_pr, w1. split; [by rewrite Hrun|].
           split; [|by rewrite Hgen].
           apply existsb_exists in Hsha as (sha & Hin & ->%String.eqb_eq). done.
        -- destruct (IH response w2) as (added & -> & Hlen & Hall).
           exists added. split; [done|]. split; [cbn; lia | done].
      * destruct (IH response w1) as (added & -> & Hlen & Hall).
        exists added. split; [done|]. split; [cbn; lia | done].
    + destruct (IH response w1) as (added & -> & Hlen & Hall).
      exists added. split; [done|]. split; [cbn; lia | done].
Qed.

(** ** Refs and commits *)

(** X18.  [check_refs] sets [TO_REF] before it checks anything, so it is
    set even when a check fails, and a failed check leaves [FROM_REF] as
    it was.  With a [from_ref] given, the ref that is checked is the
    previous value of [FROM_REF]; the given ref is stored on success and
    plays no part in the outcome. *)
Theorem check_refs_effects
    (runner : Runner) (from_ref : option string) (to_ref : string)
    (with_testing_tags : bool) (g : Refs) :
  TO_REF (check_refs runner from_ref to_ref with_testing_tags g).2 = to_ref
  /\ ((check_refs runner from_ref to_ref with_testing_tags g).1 = CalledProcessError ->
      FROM_REF (check_refs runner from_ref to_ref with_testing_tags g).2 = FROM_REF g)
  /\ (forall f,
        from_ref = Some f ->
        (check_refs runner from_ref to_ref with_testing_tags g).1 = Done tt ->
        FROM_REF (check_refs runner from_ref to_ref with_testing_tags g).2 = f
        /\ runner ("git rev-parse " +:+ FROM_REF g) <> CalledProcessError)
  /\ (forall f f',
        (check_refs runner (Some f) to_ref with_testing_tags g).1
        = (check_refs runner (Some f') to_ref with_testing_tags g).1).
Proof.
  unfold check_refs. cbn [TO_REF FROM_REF].
  repeat split.
  - destruct (runner _); [|done]. destruct from_ref.
    + by destruct (runner _).
    + destruct (runner _); [|done]. by destruct (runner _).
  - destruct (runner _); [|done]. destruct from_ref.
    + by destruct (runner _).
    + destruct (runner _); [|done]. by destruct (runner _).
  - subst from_ref. destruct (runner _); [|done]. by destruct (runner _).
  - subst from_ref. destruct (runner ("git rev-parse " +:+ to_ref)); [|done].
    by destruct (runner _).
  - destruct (runner ("git rev-parse " +:+ to_ref)); [|done]. by destruct (runner _).
Qed.

Lemma check_refs_effects_witness :
  FROM_REF (check_refs (git_known ["v1"; "v2"]) (Some "no-such-ref") "v2" false
              {| FROM_REF := "v1"; TO_REF := "" |}).2 = "no-such-ref"
  /\ git_known ["v1"; "v2"] ("git rev-parse " +:+ "v1") <> CalledProcessError
  /\ FROM_REF (check_refs (git_known ["v2"]) (Some "v1") "v2" false
                 {| FROM_REF := ""; TO_REF := "" |}).2 = "".
Proof.
  pose proof (check_refs_effects (git_known ["v1"; "v2"]) (Some "no-such-ref") "v2" false
                {| FROM_REF := "v1"; TO_REF := "" |}) as (_ & _ & Hgiven & _).
  pose proof (check_refs_effects (git_known ["v2"]) (Some "v1") "v2" false
                {| FROM_REF := ""; TO_REF := "" |}) as (_ & Hfailed & _).
  destruct (Hgiven "no-such-ref" eq_refl eq_refl) as [Hfrom Hchecked].
  split; [exact Hfrom|]. split; [exact Hchecked|]. exact (Hfailed eq_refl).
Defined.

Lemma split_free sep s : free_of sep s = true -> Str.split sep s = [s].
Proof.
  induction s as [|c s IH]; [done|]. cbn [free_of Str.split].
  intros [Hc Hs]%andb_prop. apply negb_true_iff in Hc. by rewrite Hc, IH.
Qed.

Lemma split_append sep s t :
  free_of sep s = true -> Str.split sep (s +:+ String sep t) = s :: Str.split sep t.
Proof.
  induction s as [|c s IH].
  - intros _. rewrite append_nil_l. cbn [Str.split]. by rewrite Ascii.eqb_refl.
  - cbn [free_of]. intros [Hc Hs]%andb_prop. apply negb_true_iff in Hc.
    rewrite append_cons. cbn [Str.split]. by rewrite Hc, IH.
Qed.

Lemma split_join lines :
  lines <> [] -> forallb (free_of "010") lines = true ->
  Str.split "010" (Str.join nl lines) = lines.
Proof.
  induction lines as [|l lines IH]; [done|]. intros _. cbn [forallb].
  intros [Hl Hls]%andb_prop. destruct lines as [|l' lines'].
  - by apply split_free.
  - rewrite join_cons2. unfold nl at 1. rewrite append_cons, append_nil_l.
    rewrite split_append by done. by rewrite IH.
Qed.

(** X19.  When [git log] prints one hash on each line, the last one
    without a line feed after it, [SHA_IN_CHANGELOG] is the list of these
    hashes; and it is never the empty list: for an empty output it is the
    list of the empty string. *)
Theorem set_sha_in_changelog_lines (runner : Runner) (g : Refs) :
  (forall lines,
      lines <> [] -> forallb (free_of "010") lines = true ->
      runner ("git log --format=format:%H " +:+ FROM_REF g +:+ ".." +:+ TO_REF g)
      = Done (Str.join nl lines) ->
      set_sha_in_changelog runner g = Done lines)
  /\ set_sha_in_changelog runner g <> Done [].
Proof.
  unfold set_sha_in_changelog. split.
  - intros lines Hne Hfree ->. by rewrite split_join.
  - destruct (runner _) as [out|]; [|done]. intros [= H]. by destruct out; cbn in H;
      repeat match type of H with context [if ?b then _ else _] => destruct b
                             | context [match ?l with [] => _ | _ => _ end] => destruct l
             end.
Qed.

Lemma set_sha_in_changelog_lines_witness :
  set_sha_in_changelog (fun _ => Done ("a1b2" +:+ nl +:+ "c3d4"))
    {| FROM_REF := "v1"; TO_REF := "v2" |} = Done ["a1b2"; "c3d4"]
  /\ set_sha_in_changelog (fun _ => Done "") {| FROM_REF := "v1"; TO_REF := "v2" |}
     = Done [""].
Proof.
  split.
  - apply (proj1 (set_sha_in_changelog_lines (fun _ => Done ("a1b2" +:+ nl +:+ "c3d4"))
                    {| FROM_REF := "v1"; TO_REF := "v2" |}) ["a1b2"; "c3d4"]);
      [discriminate | reflexivity | reflexivity].
  - apply (proj1 (set_sha_in_changelog_lines (fun _ => Done "")
                    {| FROM_REF := "v1"; TO_REF := "v2" |}) [""]);
      [discriminate | reflexivity | reflexivity].
Defined.

(** ** Rendering of an entry *)





(** ** Link substitution *)

Lemma link_issue_numbers_other c c' rest :
  c' <> "#"%char ->
  link_issue_numbers (String c (String c' rest))
  = String c (link_issue_numbers (String c' rest)).
Proof.
  intros Hne. destruct c' as [[] [] [] [] [] [] [] []]; first [reflexivity | congruence].
Qed.

Lemma link_issue_numbers_free s :
  free_of "#" s = true -> link_issue_numbers s = s.
Proof.
  induction s as [|c s IH]; [done|]. cbn [free_of]. intros [_ Hs]%andb_prop.
  destruct s as [|c' rest]; [done|].
  rewrite link_issue_numbers_other, IH; [done..|].
  cbn [free_of] in Hs. apply andb_prop in Hs as [Hc _].
  intros ->. done.
Qed.

Lemma match_pattern_occurs pat : forall s r p,
  match_pattern pat s = Some r -> In p (list_ascii_of_string pat) -> p <> "."%char ->
  free_of p s = false.
Proof.
  induction pat as [|q pat IH]; intros s r p; [done|].
  destruct s as [|c s]; [done|]. cbn [match_pattern list_ascii_of_string In free_of].
  destruct (if Ascii.eqb q "." then _ else _) eqn:Hq; [|done].
  intros Hm [->|Hin] Hp.
  - destruct (Ascii.eqb_spec p "."); [done|]. by rewrite Hq.
  - rewrite (IH _ _ _ Hm Hin Hp). apply andb_false_r.
Qed.

Lemma link_issue_urls_free s :
  free_of ":" s = true -> link_issue_urls s = s.
Proof.
  induction s as [|c s IH]; [done|]. cbn [free_of]. intros [_ Hs]%andb_prop.
  cbn [link_issue_urls].
  destruct (if negb (Ascii.eqb c "(") then _ else _) as [rest|] eqn:E.
  - destruct (negb _); [|done].
    apply (match_pattern_occurs _ _ _ ":"%char) in E; [congruence | cbn; tauto | done].
  - by rewrite IH.
Qed.






(** X21.  An entry with no [#] and no [:] in it is rendered as it is: the
    two substitutions leave it alone. *)
Theorem link_substitution_plain (s : string) :
  free_of "#" s = true -> free_of ":" s = true ->
  link_issue_urls (link_issue_numbers s) = s.
Proof. intros Hhash Hcolon. by rewrite link_issue_numbers_free, link_issue_urls_free. Qed.

Lemma link_substitution_plain_witness :
  link_issue_urls (link_issue_numbers "Fixed a crash in (some) parser.")
  = "Fixed a crash in (some) parser.".
Proof. apply link_substitution_plain; reflexivity. Defined.



(** ** The sections of the changelog *)

Lemma headers_app out1 out2 : headers (out1 ++ out2) = headers out1 ++ headers out2.
Proof. apply omap_app. Qed.

Lemma write_entries_headers fuel api descs : forall out w,
  headers (write_entries fuel api descs out w).1.2 = headers out.
Proof.
  induction descs as [|d descs IH]; intros out w; [done|]. cbn [write_entries].
  destruct (formatted_entry fuel api d w) as [[line|e|] w1]; [|done..].
  rewrite IH, headers_app. cbn. apply app_nil_r.
Qed.

Lemma write_section_headers fuel api category blank descs out w out' w' :
  write_section fuel api category blank descs out w = (Returned tt, out', w') ->
  headers out' = headers out ++ [category].
Proof.
  unfold write_section.
  pose proof (write_entries_headers fuel api descs (out ++ [Header category blank]) w) as H.
  destruct (write_entries _ _ _ _ _) as [[[[]|e|] out1] w1]; intros [= <- <-].
  cbn [fst snd] in H. rewrite headers_app, H, headers_app. cbn. by rewrite app_nil_r.
Qed.

Lemma write_preferred_headers fuel api descriptions categories :
  forall seen out w seen' out' w',
    write_preferred fuel api descriptions categories seen out w
    = (Returned seen', out', w') ->
    headers out' = headers out ++ List.filter (has_bucket descriptions) categories
    /\ seen' = seen ++ List.filter (has_bucket descriptions) categories.
Proof.
  induction categories as [|c categories IH]; intros seen out w seen' out' w'.
  - cbn. intros [= <- <- <-]. by rewrite !app_nil_r.
  - cbn [write_preferred List.filter].
    destruct (descriptions !! c) as [descs|] eqn:Hc.
    2: { replace (has_bucket descriptions c) with false
           by (unfold has_bucket; by rewrite Hc). apply IH. }
    replace (has_bucket descriptions c) with true by (unfold has_bucket; by rewrite Hc).
    destruct (write_section _ _ _ _ _ _ _) as [[[[]|e|] out1] w1] eqn:E; [|done..].
    intros [-> ->]%IH. apply write_section_headers in E. rewrite E.
    by rewrite <- !app_assoc.
Qed.

Lemma write_others_headers fuel api descriptions seen categories :
  forall out w out' w',
    write_others fuel api descriptions categories seen out w = (Returned tt, out', w') ->
    headers out' = headers out ++ List.filter (fun c => negb (listed seen c)) categories.
Proof.
  induction categories as [|c categories IH]; intros out w out' w'.
  - cbn. intros [= <- <-]. by rewrite app_nil_r.
  - cbn [write_others List.filter]. fold (listed seen c).
    destruct (negb (listed seen c)); [|apply IH].
    destruct (write_section _ _ _ _ _ _ _) as [[[[]|e|] out1] w1] eqn:E; [|done..].
    intros ->%IH. apply write_section_headers in E. rewrite E.
    by rewrite <- !app_assoc.
Qed.

Lemma insert_key_perm k l : Permutation (insert_key k l) (k :: l).
Proof.
  induction l as [|y l IH]; cbn; [done|].
  destruct (String.ltb y k); [|done]. rewrite IH. apply perm_swap.
Qed.

Lemma sorted_keys_perm descriptions :
  Permutation (sorted_keys descriptions) (map_to_list descriptions).*1.
Proof.
  unfold sorted_keys. induction ((map_to_list descriptions).*1) as [|k l IH]; [done|].
  cbn [foldr]. rewrite insert_key_perm. by constructor.
Qed.

Lemma ltb_leb a b : String.ltb a b = true -> str_le a b.
Proof. unfold String.ltb, str_le, String.leb. by destruct (String.compare a b). Qed.

Lemma not_ltb_leb a b : String.ltb a b = false -> str_le b a.
Proof.
  unfold String.ltb, str_le, String.leb. rewrite (String.compare_antisym a b).
  by destruct (String.compare b a).
Qed.

Lemma insert_key_sorted k l : Sorted str_le l -> Sorted str_le (insert_key k l).
Proof.
  induction 1 as [|y l Hl IH Hy]; cbn; [by repeat constructor|].
  destruct (String.ltb y k) eqn:E.
  - constructor; [exact IH|]. apply ltb_leb in E.
    destruct Hy as [|z l' Hz]; cbn; [by constructor|].
    destruct (String.ltb z k); by constructor.
  - constructor; [by constructor|]. constructor. by apply not_ltb_leb.
Qed.

Lemma sorted_keys_sorted descriptions : Sorted str_le (sorted_keys descriptions).
Proof.
  unfold sorted_keys. induction ((map_to_list descriptions).*1) as [|k l IH];
    [constructor | by apply insert_key_sorted].
Qed.

Lemma sorted_keys_has_bucket descriptions c :
  In c (sorted_keys descriptions) <-> has_bucket descriptions c = true.
Proof.
  rewrite <- list_elem_of_In, sorted_keys_perm, list_elem_of_fmap. unfold has_bucket.
  split.
  - intros ([k descs] & -> & Hin). apply elem_of_map_to_list in Hin. cbn. by rewrite Hin.
  - destruct (descriptions !! c) as [descs|] eqn:E; [|done]. intros _.
    exists (c, descs). split; [done|]. by apply elem_of_map_to_list.
Qed.

Lemma listed_In cs c : listed cs c = true <-> In c cs.
Proof.
  unfold listed. rewrite existsb_exists. split.
  - by intros (x & Hx & ->%String.eqb_eq).
  - intros H. exists c. split; [done | apply String.eqb_refl].
Qed.

Lemma filter_partition_perm {A} (p : A -> bool) l :
  Permutation (List.filter p l ++ List.filter (fun x => negb (p x)) l) l.
Proof.
  induction l as [|x l IH]; [done|]. cbn. destruct (p x); cbn.
  - by constructor.
  - rewrite <- Permutation_middle. by constructor.
Qed.

Lemma others_filter descriptions :
  List.filter (fun c => negb (listed (List.filter (has_bucket descriptions)
                                        categories_preferred_order) c))
    (sorted_keys descriptions)
  = List.filter (fun c => negb (listed categories_preferred_order c))
      (sorted_keys descriptions).
Proof.
  apply List.filter_ext_in. intros c Hc%sorted_keys_has_bucket. f_equal.
  apply eq_true_iff_eq. rewrite !listed_In, List.filter_In. tauto.
Qed.

Lemma write_changelog_headers fuel api year refs descriptions w w' out :
  write_changelog fuel api year refs descriptions w = (Returned tt, out, w') ->
  headers out
  = List.filter (has_bucket descriptions) categories_preferred_order
    ++ List.filter (fun c => negb (listed categories_preferred_order c))
         (sorted_keys descriptions).
Proof.
  unfold write_changelog.
  destruct (write_preferred _ _ _ _ _ _ _) as [[[seen|e|] out1] w1] eqn:E1; [|done..].
  intros E2. apply write_preferred_headers in E1 as [H1 ->].
  apply write_others_headers in E2. rewrite E2, H1.
  change (headers [FrontMatter year refs]) with (@nil string). cbn [app].
  by rewrite others_filter.
Qed.

(** X24.  When [write_changelog] returns, there is one section for each
    bucket and no other: first the canonical categories that have a
    bucket, in the preferred order, then the other categories in the
    order of [str]. *)
Theorem write_changelog_sections
    (fuel : nat) (api : UserApi) (year : Z) (refs : Refs)
    (descriptions : gmap string (list Description)) (w w' : World) (out : list Chunk) :
  write_changelog fuel api year refs descriptions w = (Returned tt, out, w') ->
  headers out
  = List.filter (has_bucket descriptions) categories_preferred_order
    ++ List.filter (fun c => negb (listed categories_preferred_order c))
         (sorted_keys descriptions)
  /\ Permutation (headers out) (map_to_list descriptions).*1
  /\ Sorted str_le (sorted_keys descriptions).
Proof.
  intros Hheaders%write_changelog_headers. rewrite Hheaders.
  split; [done|]. split; [|apply sorted_keys_sorted].
  rewrite <- sorted_keys_perm.
  rewrite <- (filter_partition_perm (listed categories_preferred_order)
                (sorted_keys descriptions)) at 2.
  apply Permutation_app_tail. apply NoDup_Permutation.
  - apply NoDup_ListNoDup, List.NoDup_filter, NoDup_ListNoDup.
    apply (bool_decide_unpack _). reflexivity.
  - apply NoDup_ListNoDup, List.NoDup_filter, NoDup_ListNoDup.
    rewrite sorted_keys_perm. apply NoDup_fst_map_to_list.
  - intros c. rewrite !list_elem_of_In, !List.filter_In, listed_In.
    rewrite sorted_keys_has_bucket. tauto.
Qed.

Lemma write_changelog_sections_witness :
  let descriptions :=
    get_descriptions [[mk_desc 7 "Fix." "Bug Fix"; mk_desc 3 "Z." "Zeta";
                       mk_desc 5 "A." "Alpha"; mk_desc 2 "N." "New Feature"]] in
  let refs := {| FROM_REF := "v1"; TO_REF := "v2" |} in
  headers (write_changelog 1 api_ok 2024 refs descriptions w0).1.2
  = List.filter (has_bucket descriptions) categories_preferred_order
    ++ List.filter (fun c => negb (listed categories_preferred_order c))
         (sorted_keys descriptions)
  /\ Permutation (headers (write_changelog 1 api_ok 2024 refs descriptions w0).1.2)
       (map_to_list descriptions).*1
  /\ Sorted str_le (sorted_keys descriptions).
Proof.
  intros descriptions refs.
  apply (write_changelog_sections 1 api_ok 2024 refs descriptions w0
           (write_changelog 1 api_ok 2024 refs descriptions w0).2).
  vm_compute. reflexivity.
Defined.

Lemma user_name_value fuel api u : forall w n,
  (user_name fuel api u w).1 = Returned n -> n = name_or_login u \/ n = login u.
Proof.
  induction fuel as [|fuel IH]; intros w n; cbn [user_name]; [done|].
  destruct (complete api (calls w) u) as [[]|]; cbn; try done.
  - apply IH.
  - intros [= <-]. by right.
  - intros [= <-]. by left.
Qed.

Lemma formatted_entry_rendered fuel api d w line :
  (formatted_entry fuel api d w).1 = Returned line -> rendered d line.
Proof.
  unfold formatted_entry, rendered.
  pose proof (user_name_value fuel api (user d) w) as H.
  destruct (user_name _ _ _ _) as [[n|e|] w1]; cbn in *; try done.
  intros [= <-]. destruct (H n eq_refl) as [-> | ->]; auto.
Qed.

Lemma entries_written_app out1 out2 :
  entries_written (out1 ++ out2) = entries_written out1 ++ entries_written out2.
Proof. apply omap_app. Qed.

Lemma write_entries_entries fuel api descs : forall out w out' w',
  write_entries fuel api descs out w = (Returned tt, out', w') ->
  exists lines, entries_written out' = entries_written out ++ lines
                /\ Forall2 rendered descs lines.
Proof.
  induction descs as [|d descs IH]; intros out w out' w'; cbn [write_entries].
  - intros [= <- <-]. exists []. by rewrite app_nil_r.
  - pose proof (formatted_entry_rendered fuel api d w) as Hd.
    destruct (formatted_entry fuel api d w) as [[line|e|] w1]; [|done..].
    intros (lines & -> & Hall)%IH. exists (line :: lines).
    rewrite entries_written_app, <- app_assoc. split; [done|].
    constructor; [by apply Hd | done].
Qed.

Lemma write_section_entries fuel api category blank descs out w out' w' :
  write_section fuel api category blank descs out w = (Returned tt, out', w') ->
  exists lines, entries_written out' = entries_written out ++ lines
                /\ Forall2 rendered descs lines.
Proof.
  unfold write_section.
  destruct (write_entries _ _ _ _ _) as [[[[]|e|] out1] w1] eqn:E; intros [= <- <-].
  apply write_entries_entries in E as (lines & E & Hall). exists lines.
  rewrite entries_written_app, E, entries_written_app. cbn.
  by rewrite !app_nil_r.
Qed.

Lemma write_preferred_entries fuel api descriptions categories :
  forall seen out w seen' out' w',
    write_preferred fuel api descriptions categories seen out w
    = (Returned seen', out', w') ->
    exists lines,
      entries_written out' = entries_written out ++ lines
      /\ Forall2 rendered
           (concat (map (fun c => default [] (descriptions !! c))
                      (List.filter (has_bucket descriptions) categories)))
           lines.
Proof.
  induction categories as [|c categories IH]; intros seen out w seen' out' w'.
  - cbn. intros [= <- <- <-]. exists []. rewrite app_nil_r. split; [done | constructor].
  - cbn [write_preferred List.filter].
    destruct (descriptions !! c) as [descs|] eqn:Hc.
    2: { replace (has_bucket descriptions c) with false
           by (unfold has_bucket; by rewrite Hc). apply IH. }
    replace (has_bucket descriptions c) with true by (unfold has_bucket; by rewrite Hc).
    destruct (write_section _ _ _ _ _ _ _) as [[[[]|e|] out1] w1] eqn:E; [|done..].
    intros (lines2 & -> & Hall2)%IH.
    apply write_section_entries in E as (lines1 & -> & Hall1).
    exists (lines1 ++ lines2). rewrite <- app_assoc. split; [done|].
    cbn [map concat]. rewrite Hc. cbn [default]. by apply Forall2_app.
Qed.

Lemma write_others_entries fuel api descriptions seen categories :
  forall out w out' w',
    write_others fuel api descriptions categories seen out w = (Returned tt, out', w') ->
    exists lines,
      entries_written out' = entries_written out ++ lines
      /\ Forall2 rendered
           (concat (map (fun c => default [] (descriptions !! c))
                      (List.filter (fun c => negb (listed seen c)) categories)))
           lines.
Proof.
  induction categories as [|c categories IH]; intros out w out' w'.
  - cbn. intros [= <- <-]. exists []. rewrite app_nil_r. split; [done | constructor].
  - cbn [write_others List.filter]. fold (listed seen c).
    destruct (negb (listed seen c)); [|apply IH].
    destruct (write_section _ _ _ _ _ _ _) as [[[[]|e|] out1] w1] eqn:E; [|done..].
    intros (lines2 & -> & Hall2)%IH.
    apply write_section_entries in E as (lines1 & -> & Hall1).
    exists (lines1 ++ lines2). rewrite <- app_assoc. split; [done|].
    cbn [map concat]. by apply Forall2_app.
Qed.

(** X25.  When [write_changelog] returns, the entry lines written are the
    lines of the descriptions of the buckets, each description once: the
    buckets in the order of their sections, the descriptions in the order
    of their bucket, each rendered with the name or the login of its
    user. *)
Theorem write_changelog_entries
    (fuel : nat) (api : UserApi) (year : Z) (refs : Refs)
    (descriptions : gmap string (list Description)) (w w' : World) (out : list Chunk) :
  write_changelog fuel api year refs descriptions w = (Returned tt, out, w') ->
  Forall2 rendered
    (concat (map (fun c => default [] (descriptions !! c)) (headers out)))
    (entries_written out).
Proof.
  intros Hrun. rewrite (write_changelog_headers _ _ _ _ _ _ _ _ Hrun).
  revert Hrun. unfold write_changelog.
  destruct (write_preferred _ _ _ _ _ _ _) as [[[seen|e|] out1] w1] eqn:E1; [|done..].
  intros E2. pose proof E1 as [_ ->]%write_preferred_headers.
  apply write_preferred_entries in E1 as (lines1 & H1 & Hall1).
  apply write_others_entries in E2 as (lines2 & H2 & Hall2).
  rewrite H2, H1. change (entries_written [FrontMatter year refs]) with (@nil string).
  cbn [app] in *. rewrite others_filter in Hall2.
  rewrite map_app, concat_app. by apply Forall2_app.
Qed.

Lemma write_changelog_entries_witness :
  let descriptions :=
    get_descriptions [[mk_desc 7 "Fix." "Bug Fix"; mk_desc 3 "Z." "Zeta";
                       mk_desc 5 "A." "Alpha"; mk_desc 2 "N." "New Feature"]] in
  let refs := {| FROM_REF := "v1"; TO_REF := "v2" |} in
  Forall2 rendered
    (concat (map (fun c => default [] (descriptions !! c))
               (headers (write_changelog 1 api_ok 2024 refs descriptions w0).1.2)))
    (entries_written (write_changelog 1 api_ok 2024 refs descriptions w0).1.2).
Proof.
  intros descriptions refs.
  apply (write_changelog_entries 1 api_ok 2024 refs descriptions w0
           (write_changelog 1 api_ok 2024 refs descriptions w0).2).
  vm_compute. reflexivity.
Defined.

Example scenario_normalized :
  (generate_description exact_ratio 0 (always old_snapshot) shouting_snapshot w0).1
  = Returned (Some (mk_desc 1 "Fixed a crash." "Bug Fix")).
Proof. reflexivity. Qed.
